(** * Xiaohongshu routes: QR-login sessions, the runtime cookie and the
      collect merge

    A shallow embedding of [lib/routes/xiaohongshu/cookie.ts], of the
    login route (session table, timers, QR capture, status polling) and of
    the collect helpers of [lib/routes/xiaohongshu/util.ts], together with
    the properties stated about them. *)

From Stdlib Require Import ZArith NArith List String Ascii Strings.Byte Lia.
From Stdlib Require Import Floats.SpecFloat.
From stdpp Require Import gmap list.

Set Warnings "-register-all".
Local Open Scope Z_scope.

(** ** JavaScript strings and thrown values *)

(** A JavaScript string is a sequence of UTF-16 code units. *)
Abbreviation JsString := (list N).

(** An ASCII literal of the source, as code units. *)
Definition lit (s : string) : JsString :=
  map N_of_ascii (list_ascii_of_string s).

(** [WhiteSpace] and [LineTerminator] code points of ECMAScript, the
    characters [String.prototype.trim] strips. *)
Definition isWhiteSpace (c : N) : bool :=
  ((9 <=? c) && (c <=? 13) || (c =? 32) || (c =? 160) || (c =? 5760)
   || (8192 <=? c) && (c <=? 8202) || (c =? 8232) || (c =? 8233)
   || (c =? 8239) || (c =? 8287) || (c =? 12288) || (c =? 65279))%N.

Fixpoint trimStart (s : JsString) : JsString :=
  match s with
  | c :: rest => if isWhiteSpace c then trimStart rest else s
  | [] => []
  end.

Definition trimEnd (s : JsString) : JsString := rev (trimStart (rev s)).

Definition trim (s : JsString) : JsString := trimEnd (trimStart s).

(** What a [catch] clause receives: an [Error] object with the name of its
    class and its message, or any other value, kept with the text
    [String(value)] gives. *)
Inductive Thrown :=
| ThrownError (name message : JsString)
| ThrownValue (text : JsString).

(** [error instanceof Error ? error.message : String(error)] *)
Definition errorMessage (e : Thrown) : JsString :=
  match e with
  | ThrownError _ message => message
  | ThrownValue text => text
  end.

(** The settlement of an awaited promise. *)
Inductive Outcome (A : Type) :=
| Resolved (a : A)
| Rejected (e : Thrown).
Arguments Resolved {A} a.
Arguments Rejected {A} e.

(** ** cookie.ts: the single-slot runtime cookie *)

Module Cookie.

(** The two module-level variables. *)
Record State := mkState {
  runtimeCookie : option JsString;
  runtimeUpdatedAt : option Z
}.

Definition initial : State := mkState None None.

Definition normalizeCookie (cookie : option JsString) : option JsString :=
  match cookie with
  | None | Some [] => None
  | Some c =>
      match trim c with
      | [] => None
      | trimmed => Some trimmed
      end
  end.

(** [now] is the value [Date.now()] returns at the call. *)
Definition setRuntimeCookie (now : Z) (cookie : option JsString)
    (st : State) : State :=
  let c := normalizeCookie cookie in
  mkState c (match c with
             | Some (_ :: _) => Some now
             | _ => None
             end).

Definition clearRuntimeCookie (st : State) : State := mkState None None.

(** [runtimeCookie ?? config.xiaohongshu.cookie]; [cfg] is the configured
    cookie. *)
Definition getCookieValue (cfg : option JsString) (st : State)
    : option JsString :=
  match runtimeCookie st with
  | Some c => Some c
  | None => cfg
  end.

Inductive CookieSource := SrcRuntime | SrcConfig | SrcNone.

Definition getCookieMeta (cfg : option JsString) (st : State)
    : option JsString * CookieSource * option Z :=
  (getCookieValue cfg st,
   match runtimeCookie st, cfg with
   | Some (_ :: _), _ => SrcRuntime
   | _, Some (_ :: _) => SrcConfig
   | _, _ => SrcNone
   end,
   runtimeUpdatedAt st).

(** The arguments without content: [undefined], the empty string and
    strings of white space only. *)
Definition isBlank (cookie : option JsString) : bool :=
  match cookie with
  | None => true
  | Some s => forallb isWhiteSpace s
  end.

End Cookie.

(** ** JavaScript values *)

(** The values that [JSON.parse] and structured cloning produce. Arrays and
    objects carry their address: [===] and [Set] membership compare objects
    by identity. Numbers are IEEE 754 doubles. *)
Inductive JsValue :=
| JsUndefined
| JsNull
| JsBool (b : bool)
| JsNumber (x : spec_float)
| JsStr (s : JsString)
| JsArray (addr : N) (items : list JsValue)
| JsObject (addr : N) (props : list (JsString * JsValue)).

(** [Boolean(v)] *)
Definition truthy (v : JsValue) : bool :=
  match v with
  | JsUndefined | JsNull => false
  | JsBool b => b
  | JsNumber (S754_zero _) | JsNumber S754_nan => false
  | JsNumber _ => true
  | JsStr [] => false
  | JsStr _ => true
  | JsArray _ _ | JsObject _ _ => true
  end.

Fixpoint assoc (name : JsString) (props : list (JsString * JsValue)) : JsValue :=
  match props with
  | [] => JsUndefined
  | (key, v) :: rest => if bool_decide (key = name) then v else assoc name rest
  end.

(** [v.name] and [v?.name] for the property names the source reads
    ([data], [notes], [note_list], [noteList], [note_id], [noteId], [id],
    [has_more], [hasMore]): none of them is a property of a primitive or
    of an array. The source reads a property of a possibly nullish value
    only through [?.], which gives [undefined] there. *)
Definition getProp (v : JsValue) (name : string) : JsValue :=
  match v with
  | JsObject _ props => assoc (lit name) props
  | _ => JsUndefined
  end.

(** [a || b] *)
Definition jsOr (a b : JsValue) : JsValue := if truthy a then a else b.

(** [a ?? b] *)
Definition jsNullish (a b : JsValue) : JsValue :=
  match a with
  | JsUndefined | JsNull => b
  | _ => a
  end.

Definition numberSameValueZero (x y : spec_float) : bool :=
  match x, y with
  | S754_zero _, S754_zero _ => true
  | S754_nan, S754_nan => true
  | S754_infinity s, S754_infinity t => Bool.eqb s t
  | S754_finite s m e, S754_finite t n f =>
      Bool.eqb s t && Pos.eqb m n && Z.eqb e f
  | _, _ => false
  end.

(** The comparison a [Set] uses for its members. *)
Definition sameValueZero (a b : JsValue) : bool :=
  match a, b with
  | JsUndefined, JsUndefined | JsNull, JsNull => true
  | JsBool x, JsBool y => Bool.eqb x y
  | JsNumber x, JsNumber y => numberSameValueZero x y
  | JsStr x, JsStr y => bool_decide (x = y)
  | JsArray p _, JsArray q _ | JsObject p _, JsObject q _ => N.eqb p q
  | _, _ => false
  end.

(** [a === b]: like [sameValueZero], but [NaN] differs from itself. *)
Definition strictEquals (a b : JsValue) : bool :=
  match a, b with
  | JsNumber S754_nan, JsNumber S754_nan => false
  | _, _ => sameValueZero a b
  end.

(** A [Set], as the list of its members in insertion order. *)
Definition setHas (seen : list JsValue) (v : JsValue) : bool :=
  existsb (fun member => sameValueZero member v) seen.

Definition setAdd (seen : list JsValue) (v : JsValue) : list JsValue :=
  if setHas seen v then seen else seen ++ [v].

(** ** util.ts: selecting and merging collect notes *)

Module Collect.

(** [list.filter(Boolean)] *)
Definition filterBoolean (items : list JsValue) : list JsValue :=
  List.filter truthy items.

Definition selectCollectNotes (collect : JsValue) : list JsValue :=
  if negb (truthy collect) then []
  else
    match collect with
    | JsArray _ items => filterBoolean items
    | _ =>
        let data := jsNullish (getProp collect "data") collect in
        match getProp data "notes" with
        | JsArray _ items => filterBoolean items
        | _ =>
            match getProp data "note_list" with
            | JsArray _ items => filterBoolean items
            | _ =>
                match getProp collect "notes" with
                | JsArray _ items => filterBoolean items
                | _ =>
                    match getProp collect "noteList" with
                    | JsArray _ items => filterBoolean items
                    | _ => []
                    end
                end
            end
        end
    end.

(** [note.note_id || note.noteId || note.id] *)
Definition noteIdOf (note : JsValue) : JsValue :=
  jsOr (jsOr (getProp note "note_id") (getProp note "noteId"))
       (getProp note "id").

(** One turn of the inner loop, on the pair of [merged] and [seen]. *)
Definition mergeNote (acc : list JsValue * list JsValue) (note : JsValue)
    : list JsValue * list JsValue :=
  let '(merged, seen) := acc in
  if negb (truthy note) then acc
  else
    let noteId := noteIdOf note in
    if truthy noteId && setHas seen noteId then acc
    else (merged ++ [note],
          if truthy noteId then setAdd seen noteId else seen).

(** One turn of the outer loop. *)
Definition mergeSource (acc : list JsValue * list JsValue)
    (source : JsValue) : list JsValue * list JsValue :=
  fold_left mergeNote (selectCollectNotes source) acc.

(** The object literal [{ data: { notes: merged } }], allocated at
    [addr]. *)
Definition collectOf (addr : N) (merged : list JsValue) : JsValue :=
  JsObject addr
    [(lit "data",
      JsObject (addr + 1) [(lit "notes", JsArray (addr + 2) merged)])].

(** [addr] is the next free address of the heap. *)
Definition mergeCollectSources (addr : N) (sources : list JsValue)
    : JsValue :=
  let '(merged, _) := fold_left mergeSource sources ([], []) in
  match merged with
  | [] => JsNull
  | _ => collectOf addr merged
  end.

Definition hasMoreCollectFlag (collect : JsValue) : JsValue :=
  if negb (truthy collect) then JsNull
  else
    let data := jsNullish (getProp collect "data") collect in
    match getProp data "has_more" with
    | JsBool b => JsBool b
    | _ =>
        match getProp data "hasMore" with
        | JsBool b => JsBool b
        | _ => JsNull
        end
    end.

(** The notes the sources contribute, in source order. *)
Definition contributed (sources : list JsValue) : list JsValue :=
  concat (map selectCollectNotes sources).

(** The [data.notes] array of a merge result; empty for [null]. *)
Definition mergedNotes (result : JsValue) : list JsValue :=
  match getProp (getProp result "data") "notes" with
  | JsArray _ items => items
  | _ => []
  end.

(** [note] bears the id [k]. A note whose three id fields are all falsy
    carries no id. *)
Definition bearsId (k : JsValue) (note : JsValue) : bool :=
  sameValueZero (noteIdOf note) k.

Definition hasNoId (note : JsValue) : bool := negb (truthy (noteIdOf note)).

(** The notes a run of the inner loop appends to [merged], given the ids
    already in [seen]. *)
Fixpoint kept (seen : list JsValue) (notes : list JsValue) : list JsValue :=
  match notes with
  | [] => []
  | note :: rest =>
      if negb (truthy note) then kept seen rest
      else
        let noteId := noteIdOf note in
        if truthy noteId && setHas seen noteId then kept seen rest
        else note :: kept (if truthy noteId then setAdd seen noteId else seen)
                          rest
  end.

End Collect.

(** ** util.ts: the collect pipeline *)

Module Pipeline.

Import Collect.

Fixpoint startsWith (prefix s : JsString) : bool :=
  match prefix, s with
  | [], _ => true
  | a :: prefix', b :: s' => N.eqb a b && startsWith prefix' s'
  | _ :: _, [] => false
  end.

(** [s.includes(needle)] *)
Fixpoint includes (needle s : JsString) : bool :=
  startsWith needle s
  || match s with
     | [] => false
     | _ :: s' => includes needle s'
     end.

(** [/passport|login/.test(url)] *)
Definition isLoginUrl (url : JsString) : bool :=
  includes (lit "passport") url || includes (lit "login") url.

(** The texts of the three errors the pipeline raises itself. *)
Definition captchaMessage : JsString :=
  [23567; 32418; 20070; 39118; 25511; 26657; 39564; 65292; 35831; 31245;
   21518; 20877; 35797]%N.

Definition cookieNeededMessage : JsString :=
  ([35775; 38382; 25910; 34255; 20869; 23481; 38656; 35201; 37197; 32622;
    32] ++ lit "XIAOHONGSHU_COOKIE")%N.

Definition nothingMessage : JsString :=
  [26080; 27861; 33719; 21462; 25910; 34255; 20869; 23481; 65292; 35831;
   31245; 21518; 20877; 35797]%N.

Definition CaptchaError (message : JsString) : Thrown :=
  ThrownError (lit "CaptchaError") message.

Definition InvalidParameterError (message : JsString) : Thrown :=
  ThrownError (lit "InvalidParameterError") message.

(** What the browser and the network do during one run of the callback
    [getUserCollect] hands to the cache: the settlement of every awaited
    call that is not caught where it is made. *)
Record Run := mkRun {
  (** [fetchCollectFromHtml(collectUrl)]; it catches its own errors *)
  httpCollect : JsValue;
  (** [getPuppeteerPage(collectUrl, ...)] *)
  openPage : Outcome unit;
  (** [page.goto(collectUrl, ...)] *)
  gotoPage : Outcome unit;
  (** [page.waitForSelector('div.reds-tab-item:nth-child(2), #red-captcha')] *)
  waitTab : Outcome unit;
  (** [page.$('#red-captcha')]: whether the element is there *)
  captcha : Outcome bool;
  (** [page.url()] *)
  currentUrl : JsString;
  (** [page.evaluate(...)] of the initial state, read again from the HTML
      when it has no [user], then [extractCollectFromState] of it *)
  ssrCollect : Outcome JsValue;
  (** [page.$('.lock-icon')] inside [triggerCollectByClick]; the click and
      the wait after it are caught there *)
  lockIcon : Outcome bool;
  (** [scrollCollectList(page, 8)] *)
  scroll : Outcome unit;
  (** the payloads the response handlers have pushed when
      [Promise.allSettled] returns *)
  collectPayloads : list JsValue;
  (** [extractCollectFromDom(page)] *)
  domCollect : Outcome JsValue;
  (** [destory()] in the [finally] clause *)
  destory : Outcome unit
}.

(** The [try] block reads and assigns [collectResult] and allocates
    objects; a statement completes or throws. *)
Record Vars := mkVars { collectResult : JsValue; nextAddr : N }.

Definition Try (A : Type) : Type := Vars -> Vars * Outcome A.

Definition ret {A} (a : A) : Try A := fun vars => (vars, Resolved a).

Definition throw {A} (e : Thrown) : Try A := fun vars => (vars, Rejected e).

Definition await {A} (o : Outcome A) : Try A := fun vars => (vars, o).

Definition bind {A B} (m : Try A) (k : A -> Try B) : Try B :=
  fun vars =>
    match m vars with
    | (vars', Resolved a) => k a vars'
    | (vars', Rejected e) => (vars', Rejected e)
    end.

Notation "x <- m ;; k" := (bind m (fun x => k))
  (at level 100, m at next level, right associativity).
Notation "m ;;; k" := (bind m (fun _ => k))
  (at level 100, right associativity).

Definition when (b : bool) (m : Try unit) : Try unit :=
  if b then m else ret tt.

Definition readResult : Try JsValue :=
  fun vars => (vars, Resolved (collectResult vars)).

(** [collectResult = mergeCollectSources(collectResult, source) ?? collectResult] *)
Definition mergeInto (source : JsValue) : Try unit :=
  fun vars =>
    let merged :=
      mergeCollectSources (nextAddr vars) [collectResult vars; source] in
    (mkVars (jsNullish merged (collectResult vars)) (nextAddr vars + 3),
     Resolved tt).

(** [mergeCollectSources(...collectPayloads)] *)
Definition mergePayloads (payloads : list JsValue) : Try JsValue :=
  fun vars =>
    (mkVars (collectResult vars) (nextAddr vars + 3),
     Resolved (mergeCollectSources (nextAddr vars) payloads)).

Definition tryBlock (run : Run) : Try JsValue :=
  await (gotoPage run) ;;;
  await (waitTab run) ;;;
  found <- await (captcha run) ;;
  when found (throw (CaptchaError captchaMessage)) ;;;
  when (isLoginUrl (currentUrl run))
       (throw (InvalidParameterError cookieNeededMessage)) ;;;
  ssr <- await (ssrCollect run) ;;
  mergeInto ssr ;;;
  result <- readResult ;;
  when (negb (truthy result)) (_ <- await (lockIcon run) ;; ret tt) ;;;
  await (scroll run) ;;;
  apiCollect <- mergePayloads (collectPayloads run) ;;
  mergeInto apiCollect ;;;
  dom <- await (domCollect run) ;;
  mergeInto dom ;;;
  result <- readResult ;;
  if negb (truthy result)
  then throw (InvalidParameterError nothingMessage)
  else ret result.

(** The [catch] clause. *)
Definition catchBlock (vars : Vars) (e : Thrown) : Outcome JsValue :=
  if truthy (collectResult vars) then Resolved (collectResult vars)
  else Rejected e.

(** The [finally] clause: a rejected [destory()] replaces the completion
    of the block. *)
Definition finallyBlock (run : Run) (completion : Outcome JsValue)
    : Outcome JsValue :=
  match destory run with
  | Resolved _ => completion
  | Rejected e => Rejected e
  end.

(** The callback of [getUserCollect]; [addr] is the next free address. *)
Definition getUserCollect (addr : N) (run : Run) : Outcome JsValue :=
  let collectFromHttp := httpCollect run in
  if truthy collectFromHttp
     && strictEquals (hasMoreCollectFlag collectFromHttp) (JsBool false)
  then Resolved collectFromHttp
  else
    match openPage run with
    | Rejected e => Rejected e
    | Resolved _ =>
        finallyBlock run
          (match tryBlock run (mkVars collectFromHttp addr) with
           | (_, Resolved result) => Resolved result
           | (vars, Rejected e) => catchBlock vars e
           end)
    end.



End Pipeline.

(** ** The login route: the QR-login session manager *)

Module Login.

Inductive Status := pending | success | expired | failed.

Definition SESSION_TTL : Z := 5 * 60 * 1000.

(** The grace period of the removal timer. Time itself is not part of
    the state: an armed timer may fire at any step. *)
Definition REMOVAL_DELAY : Z := 2 * 60 * 1000.

(** Handles of the browser automation layer and of the runtime: a page,
    the teardown function that comes with it, a timer, the address of a
    session object. *)
Abbreviation Page := nat.
Abbreviation Teardown := nat.
Abbreviation Timer := nat.
Abbreviation Loc := nat.

Record LoginSession := mkSession {
  id : JsString;
  status : Status;
  createdAt : Z;
  page : option Page;
  destory : option Teardown;
  cookie : option JsString;
  error : option JsString;
  monitor : option Timer;
  expireTimer : option Timer;
  removalTimer : option Timer
}.

Definition set_status (v : Status) (s : LoginSession) : LoginSession :=
  mkSession (id s) v (createdAt s) (page s) (destory s) (cookie s) (error s)
            (monitor s) (expireTimer s) (removalTimer s).
Definition set_page (v : option Page) (s : LoginSession) : LoginSession :=
  mkSession (id s) (status s) (createdAt s) v (destory s) (cookie s)
            (error s) (monitor s) (expireTimer s) (removalTimer s).
Definition set_destory (v : option Teardown) (s : LoginSession)
    : LoginSession :=
  mkSession (id s) (status s) (createdAt s) (page s) v (cookie s) (error s)
            (monitor s) (expireTimer s) (removalTimer s).
Definition set_cookie (v : option JsString) (s : LoginSession)
    : LoginSession :=
  mkSession (id s) (status s) (createdAt s) (page s) (destory s) v (error s)
            (monitor s) (expireTimer s) (removalTimer s).
Definition set_error (v : option JsString) (s : LoginSession)
    : LoginSession :=
  mkSession (id s) (status s) (createdAt s) (page s) (destory s) (cookie s) v
            (monitor s) (expireTimer s) (removalTimer s).
Definition set_monitor (v : option Timer) (s : LoginSession) : LoginSession :=
  mkSession (id s) (status s) (createdAt s) (page s) (destory s) (cookie s)
            (error s) v (expireTimer s) (removalTimer s).
Definition set_expireTimer (v : option Timer) (s : LoginSession)
    : LoginSession :=
  mkSession (id s) (status s) (createdAt s) (page s) (destory s) (cookie s)
            (error s) (monitor s) v (removalTimer s).
Definition set_removalTimer (v : option Timer) (s : LoginSession)
    : LoginSession :=
  mkSession (id s) (status s) (createdAt s) (page s) (destory s) (cookie s)
            (error s) (monitor s) (expireTimer s) v.

(** What an armed timer runs when it fires. The monitor and expiry
    closures look the session up by id; the removal closure holds the
    session object. *)
Inductive Callback :=
| MonitorTick (sessionId : JsString)
| ExpireTick (sessionId : JsString)
| RemovalTick (session : Loc).

(** A call suspended at its [await], with the session object it holds:
    [monitorSession] at [await session.page.cookies()] and
    [cleanupSessionResources] at [await session.destory()]. *)
Inductive Suspended :=
| AwaitCookies (session : Loc)
| AwaitDestory (session : Loc).

(** The state of the process: the session objects, the [loginSessions]
    map from ids to them, the armed timers, the suspended calls, the
    runtime cookie of cookie.ts, the teardown functions handed over by
    [getPuppeteerPage] and the calls made to them (latest first), and
    the next unused handle. *)
Record World := mkWorld {
  heap : gmap Loc LoginSession;
  loginSessions : gmap JsString Loc;
  timers : gmap Timer Callback;
  suspended : gmap nat Suspended;
  runtime : Cookie.State;
  acquired : list Teardown;
  destroyed : list Teardown;
  next : nat
}.

Definition initial : World :=
  mkWorld ∅ ∅ ∅ ∅ Cookie.initial [] [] 0.

Definition set_heap (v : gmap Loc LoginSession) (w : World) : World :=
  mkWorld v (loginSessions w) (timers w) (suspended w) (runtime w)
          (acquired w) (destroyed w) (next w).
Definition set_loginSessions (v : gmap JsString Loc) (w : World) : World :=
  mkWorld (heap w) v (timers w) (suspended w) (runtime w) (acquired w)
          (destroyed w) (next w).
Definition set_timers (v : gmap Timer Callback) (w : World) : World :=
  mkWorld (heap w) (loginSessions w) v (suspended w) (runtime w)
          (acquired w) (destroyed w) (next w).
Definition set_suspended (v : gmap nat Suspended) (w : World) : World :=
  mkWorld (heap w) (loginSessions w) (timers w) v (runtime w) (acquired w)
          (destroyed w) (next w).
Definition set_runtime (v : Cookie.State) (w : World) : World :=
  mkWorld (heap w) (loginSessions w) (timers w) (suspended w) v
          (acquired w) (destroyed w) (next w).
Definition set_acquired (v : list Teardown) (w : World) : World :=
  mkWorld (heap w) (loginSessions w) (timers w) (suspended w) (runtime w)
          v (destroyed w) (next w).
Definition set_destroyed (v : list Teardown) (w : World) : World :=
  mkWorld (heap w) (loginSessions w) (timers w) (suspended w) (runtime w)
          (acquired w) v (next w).
Definition set_next (v : nat) (w : World) : World :=
  mkWorld (heap w) (loginSessions w) (timers w) (suspended w) (runtime w)
          (acquired w) (destroyed w) v.

(** [loginSessions.get(sessionId)] *)
Definition getSession (sessionId : JsString) (w : World)
    : option (Loc * LoginSession) :=
  match loginSessions w !! sessionId with
  | Some l =>
      match heap w !! l with
      | Some s => Some (l, s)
      | None => None
      end
  | None => None
  end.

(** An assignment to a field of the session object at [l]. *)
Definition assign (l : Loc) (f : LoginSession -> LoginSession) (w : World)
    : World :=
  set_heap (alter f l (heap w)) w.

(** [setInterval] and [setTimeout]: the new timer and the world with it
    armed. *)
Definition arm (cb : Callback) (w : World) : Timer * World :=
  (next w, set_next (S (next w)) (set_timers (<[next w := cb]> (timers w)) w)).

(** [clearInterval] and [clearTimeout] *)
Definition disarm (t : Timer) (w : World) : World :=
  set_timers (delete t (timers w)) w.

(** A call reaches an [await] on the browser and is parked under a new
    key. *)
Definition suspend (k : Suspended) (w : World) : nat * World :=
  (next w,
   set_next (S (next w)) (set_suspended (<[next w := k]> (suspended w)) w)).

(** The awaited promise has settled: the parked call leaves the table. *)
Definition unpark (key : nat) (w : World) : World :=
  set_suspended (delete key (suspended w)) w.

(** The call [destory()] of the teardown function [d]. *)
Definition callDestory (d : Teardown) (w : World) : World :=
  set_destroyed (d :: destroyed w) w.

(** *** cleanupSessionResources *)

Definition clearMonitor (l : Loc) (w : World) : World :=
  match heap w !! l with
  | Some s =>
      match monitor s with
      | Some t => assign l (set_monitor None) (disarm t w)
      | None => w
      end
  | None => w
  end.

Definition clearExpireTimer (l : Loc) (w : World) : World :=
  match heap w !! l with
  | Some s =>
      match expireTimer s with
      | Some t => assign l (set_expireTimer None) (disarm t w)
      | None => w
      end
  | None => w
  end.

Definition armRemoval (l : Loc) (w : World) : World :=
  match heap w !! l with
  | Some s =>
      match removalTimer s with
      | None =>
          let '(t, w') := arm (RemovalTick l) w in
          assign l (set_removalTimer (Some t)) w'
      | Some _ => w
      end
  | None => w
  end.

(** The call up to [await session.destory()], with the key of the parked
    call; when there is no page to close the call runs to its end. *)
Definition cleanupBegin (l : Loc) (w : World) : World * option nat :=
  let w := clearExpireTimer l (clearMonitor l w) in
  match heap w !! l with
  | Some s =>
      match page s, destory s with
      | Some _, Some d =>
          let '(key, w') := suspend (AwaitDestory l) (callDestory d w) in
          (w', Some key)
      | _, _ => (armRemoval l w, None)
      end
  | None => (w, None)
  end.

(** The rest of the call, once [destory()] has settled; a rejection is
    logged and changes nothing. *)
Definition cleanupResume (l : Loc) (closed : Outcome unit) (w : World)
    : World :=
  armRemoval l (assign l (set_destory None) (assign l (set_page None) w)).

(** A whole call, with no other callback running while it awaits;
    [closed] is what [destory()] does if it is called. *)
Definition cleanupSessionResources (l : Loc) (closed : Outcome unit)
    (w : World) : World :=
  match cleanupBegin l w with
  | (w', Some key) => cleanupResume l closed (unpark key w')
  | (w', None) => w'
  end.

(** *** monitorSession *)

Record BrowserCookie := mkCookie { name : JsString; value : JsString }.

(** [parts.join(sep)] *)
Fixpoint join (sep : JsString) (parts : list JsString) : JsString :=
  match parts with
  | [] => []
  | [part] => part
  | part :: rest => part ++ sep ++ join sep rest
  end.

(** The call up to [await session.page.cookies()]. *)
Definition monitorBegin (sessionId : JsString) (w : World) : World :=
  match getSession sessionId w with
  | Some (l, s) =>
      match status s, page s with
      | pending, Some _ => snd (suspend (AwaitCookies l) w)
      | _, _ => w
      end
  | None => w
  end.

(** The rest of the call, once [cookies()] has settled; [now] is
    [Date.now()] at that time. *)
Definition monitorResume (l : Loc) (now : Z)
    (cookies : Outcome (list BrowserCookie)) (w : World) : World :=
  match cookies with
  | Resolved cookies =>
      if existsb (fun c => bool_decide (name c = lit "web_session")) cookies
      then
        let text :=
          join (lit "; ")
               (map (fun c => name c ++ lit "=" ++ value c) cookies) in
        let w := assign l (set_cookie (Some text)) w in
        let w := set_runtime
                   (Cookie.setRuntimeCookie now (Some text) (runtime w)) w in
        let w := assign l (set_status success) w in
        fst (cleanupBegin l w)
      else w
  | Rejected e =>
      let w := assign l (set_status failed) w in
      let w := assign l (set_error (Some (errorMessage e))) w in
      fst (cleanupBegin l w)
  end.

(** *** markSessionExpired *)

Definition markSessionExpired (sessionId : JsString) (w : World) : World :=
  match getSession sessionId w with
  | Some (l, s) =>
      let w := match status s with
               | pending => assign l (set_status expired) w
               | _ => w
               end in
      fst (cleanupBegin l w)
  | None => w
  end.

(** The closure of the removal timer: [loginSessions.delete(session.id)]. *)
Definition removeSession (l : Loc) (w : World) : World :=
  match heap w !! l with
  | Some s => set_loginSessions (delete (id s) (loginSessions w)) w
  | None => w
  end.

(** *** createLoginSession *)

(** What the runtime and the browser do during one call. *)
Record Creation := mkCreation {
  (** [randomUUID()] *)
  uuid : JsString;
  (** [getPuppeteerPage(LOGIN_URL, ...)], which also navigates *)
  opened : Outcome (Page * Teardown);
  (** [page.setViewport(...)] *)
  viewport : Outcome unit;
  (** [page.waitForSelector(...)] with its timeout of 20 s *)
  qrShown : Outcome unit;
  (** [destory()] in the [catch] clause *)
  closed : Outcome unit;
  (** [Date.now()] *)
  now : Z
}.

(** The call touches the state after its last [await] only, so it is one
    step; what it awaited is in [env]. It gives the session object. *)
Definition createLoginSession (env : Creation) (w : World)
    : World * Outcome Loc :=
  match opened env with
  | Rejected e => (w, Rejected e)
  | Resolved (p, d) =>
      let w := set_acquired (d :: acquired w) w in
      match viewport env with
      | Rejected e => (w, Rejected e)
      | Resolved _ =>
          match qrShown env with
          | Rejected e =>
              let w := callDestory d w in
              match closed env with
              | Rejected e' => (w, Rejected e')
              | Resolved _ => (w, Rejected e)
              end
          | Resolved _ =>
              let l := next w in
              let session :=
                mkSession (uuid env) pending (now env) (Some p) (Some d)
                          None None None None None in
              let w := set_next (S l) (set_heap (<[l := session]> (heap w)) w) in
              let '(t, w) := arm (MonitorTick (uuid env)) w in
              let w := assign l (set_monitor (Some t)) w in
              let '(t, w) := arm (ExpireTick (uuid env)) w in
              let w := assign l (set_expireTimer (Some t)) w in
              let w :=
                set_loginSessions (<[uuid env := l]> (loginSessions w)) w in
              (w, Resolved l)
          end
      end
  end.

(** *** Responses *)

Inductive Body :=
| ErrorBody (error : JsString) (message : option JsString)
| MissingBody
| StatusBody (id : JsString) (status : Status)
             (cookie error : option JsString) (expiresAt : Z).

(** [ctx.json(body, code)], with 200 when no code is given;
    [new Response(buffer, {headers: {'content-type': ...}})];
    [ctx.html(renderLandingPage(ctx, sessionId))]. *)
Inductive Response :=
| Json (code : Z) (body : Body)
| Binary (contentType : JsString) (buffer : list byte)
| Landing (sessionId : JsString).

Definition code (r : Response) : Z :=
  match r with
  | Json code _ => code
  | Binary _ _ | Landing _ => 200
  end.

(** *** serveStatus *)

Definition serveStatus (sessionId : JsString) (w : World) : Response :=
  match getSession sessionId w with
  | None => Json 404 MissingBody
  | Some (_, s) =>
      Json 200
        (StatusBody (id s) (status s)
           (match status s with
            | success => cookie s
            | _ => None
            end)
           (error s)
           (createdAt s + SESSION_TTL))
  end.

(** *** captureQRCode and serveQRCode *)

Abbreviation Element := nat.

(** What a page answers during one capture: [page.$(selector)],
    [element.screenshot({type: 'png'})], [page.screenshot({type: 'png'})]. *)
Record PageView := mkView {
  query : JsString -> Outcome (option Element);
  elementScreenshot : Element -> Outcome (list byte);
  pageScreenshot : Outcome (list byte)
}.

Definition quote : JsString := [34%N].

Definition selectors : list JsString :=
  [lit ".login-container img";
   lit ".login-qrcode img";
   lit ".reds-login-qrcode img";
   lit "img[src*=" ++ quote ++ lit "qrcode" ++ quote ++ lit "]";
   lit "canvas[aria-label*=qrcode]"].

Fixpoint captureFrom (view : PageView) (sels : list JsString)
    : Outcome (list byte) :=
  match sels with
  | [] => pageScreenshot view
  | selector :: rest =>
      match query view selector with
      | Rejected e => Rejected e
      | Resolved None => captureFrom view rest
      | Resolved (Some element) =>
          match elementScreenshot view element with
          | Resolved png => Resolved png
          | Rejected _ => captureFrom view rest
          end
      end
  end.

Definition captureQRCode (view : PageView) : Outcome (list byte) :=
  captureFrom view selectors.

Definition sessionInactive : Response :=
  Json 404 (ErrorBody (lit "session_inactive") None).

(** [browser] gives what each open page answers during the request. *)
Definition serveQRCode (browser : Page -> PageView) (sessionId : JsString)
    (w : World) : Response :=
  match getSession sessionId w with
  | Some (_, s) =>
      match status s, page s with
      | pending, Some p =>
          match captureQRCode (browser p) with
          | Resolved png => Binary (lit "image/png") png
          | Rejected e =>
              Json 500
                (ErrorBody (lit "qrcode_unavailable") (Some (errorMessage e)))
          end
      | _, _ => sessionInactive
      end
  | None => sessionInactive
  end.

(** *** The scheduler *)

(** What can happen next: a request for the landing page, an armed timer
    fires, an awaited browser call settles, a status or QR request. Each
    runs to its next [await] before anything else does. *)
Inductive Event :=
| Create (env : Creation)
| Fires (t : Timer)
| CookiesSettle (key : nat) (now : Z) (cookies : Outcome (list BrowserCookie))
| DestorySettles (key : nat) (closed : Outcome unit)
| PollStatus (sessionId : JsString)
| RequestQRCode (browser : Page -> PageView) (sessionId : JsString).

(** A timeout leaves the armed timers when it fires; an interval stays. *)
Definition fire (t : Timer) (w : World) : option World :=
  match timers w !! t with
  | Some (MonitorTick sessionId) => Some (monitorBegin sessionId w)
  | Some (ExpireTick sessionId) =>
      Some (markSessionExpired sessionId (disarm t w))
  | Some (RemovalTick l) => Some (removeSession l (disarm t w))
  | None => None
  end.

(** [None] when the event cannot happen in [w]. *)
Definition step (w : World) (ev : Event) : option World :=
  match ev with
  | Create env => Some (fst (createLoginSession env w))
  | Fires t => fire t w
  | CookiesSettle key now cookies =>
      match suspended w !! key with
      | Some (AwaitCookies l) =>
          Some (monitorResume l now cookies (unpark key w))
      | _ => None
      end
  | DestorySettles key closed =>
      match suspended w !! key with
      | Some (AwaitDestory l) => Some (cleanupResume l closed (unpark key w))
      | _ => None
      end
  | PollStatus _ => Some w
  | RequestQRCode _ _ => Some w
  end.

Fixpoint run (w : World) (events : list Event) : option World :=
  match events with
  | [] => Some w
  | ev :: rest =>
      match step w ev with
      | Some w' => run w' rest
      | None => None
      end
  end.

Definition terminal (st : Status) : bool :=
  match st with
  | pending => false
  | _ => true
  end.

(** *** handler *)

Record Request := mkRequest {
  sessionIdParam : option JsString;
  actionParam : option JsString
}.

Definition handler (env : Creation) (browser : Page -> PageView)
    (req : Request) (w : World) : World * Outcome Response :=
  match sessionIdParam req with
  | None | Some [] =>
      match createLoginSession env w with
      | (w', Resolved _) =>
          (w', Resolved (Landing (uuid env)))
      | (w', Rejected e) => (w', Rejected e)
      end
  | Some sessionId =>
      if bool_decide (actionParam req = Some (lit "qrcode"))
      then (w, Resolved (serveQRCode browser sessionId w))
      else if bool_decide (actionParam req = Some (lit "status"))
      then (w, Resolved (serveStatus sessionId w))
      else (w, Resolved (Json 404 (ErrorBody (lit "unsupported_action") None)))
  end.

(** *** Predicates of the properties *)

(** The payload rule of the data model: [cookie] is there exactly in
    [success], [error] exactly in [failed]. *)
Definition payloadRule (s : LoginSession) : Prop :=
  (is_Some (cookie s) <-> status s = success)
  /\ (is_Some (error s) <-> status s = failed).

(** A session whose resources are released: no timer of its own left
    but the removal timer, no page, no teardown function. *)
Definition released (s : LoginSession) : Prop :=
  monitor s = None /\ expireTimer s = None /\ page s = None
  /\ destory s = None /\ is_Some (removalTimer s).

(** The page and its teardown function come and go together. *)
Definition paired (s : LoginSession) : Prop :=
  page s = None <-> destory s = None.

(** An update of a session object that leaves its identity, its status and
    its payload alone and keeps page and teardown paired. *)
Definition gentle (f : LoginSession -> LoginSession) : Prop :=
  forall s,
    id (f s) = id s /\ status (f s) = status s
    /\ createdAt (f s) = createdAt s
    /\ cookie (f s) = cookie s /\ error (f s) = error s
    /\ (paired s -> paired (f s)).

(** [w'] differs from [w] on the heap by a gentle update of the object at
    [l] at most, and its next handle is not below that of [w]. *)
Definition gently (l : Loc) (w w' : World) : Prop :=
  (next w <= next w')%nat
  /\ exists f, gentle f /\ heap w' = alter f l (heap w).

(** How one step of the scheduler changes a session object: by a gentle
    update; by the expiry of a [pending] session; or by the rest of a
    monitor tick, whose cookie read has settled, and which marks the
    session [success] with its cookie or [failed] with its error. A gentle
    update (the cleanup) follows each. *)
Inductive Change (w : World) (ev : Event) (l : Loc)
    : (LoginSession -> LoginSession) -> Prop :=
| change_gentle (f : LoginSession -> LoginSession) :
    gentle f -> Change w ev l f
| change_expired (f : LoginSession -> LoginSession) (s : LoginSession) :
    gentle f -> heap w !! l = Some s -> status s = pending ->
    Change w ev l (f ∘ set_status expired)
| change_success (f : LoginSession -> LoginSession) (key : nat) (now : Z)
    (cookies : list BrowserCookie) (text : JsString) :
    gentle f -> ev = CookiesSettle key now (Resolved cookies) ->
    suspended w !! key = Some (AwaitCookies l) ->
    Change w ev l (f ∘ (set_status success ∘ set_cookie (Some text)))
| change_failed (f : LoginSession -> LoginSession) (key : nat) (now : Z)
    (e : Thrown) :
    gentle f -> ev = CookiesSettle key now (Rejected e) ->
    suspended w !! key = Some (AwaitCookies l) ->
    Change w ev l
      (f ∘ (set_error (Some (errorMessage e)) ∘ set_status failed)).

(** The worlds the scheduler can reach. *)
Inductive Reachable : World -> Prop :=
| reach_initial : Reachable initial
| reach_step (w : World) (ev : Event) (w' : World) :
    Reachable w -> step w ev = Some w' -> Reachable w'.

(** A cookie read settles in time when the session of the tick that made
    it is still [pending]. *)
Definition timely (w : World) (ev : Event) : Prop :=
  match ev with
  | CookiesSettle key _ _ =>
      forall l, suspended w !! key = Some (AwaitCookies l) ->
                exists s, heap w !! l = Some s /\ status s = pending
  | _ => True
  end.

(** The worlds reached when every cookie read settles in time. *)
Inductive ReachableTimely : World -> Prop :=
| timely_initial : ReachableTimely initial
| timely_step (w : World) (ev : Event) (w' : World) :
    ReachableTimely w -> timely w ev -> step w ev = Some w' ->
    ReachableTimely w'.

(** A session is inactive for the QR route when it is missing, not
    [pending], or without a page. *)
Definition inactive (sessionId : JsString) (w : World) : Prop :=
  getSession sessionId w = None
  \/ exists l s, getSession sessionId w = Some (l, s)
                 /\ (status s <> pending \/ page s = None).

(** A selector that yields no picture: no element matches it, or the
    screenshot of the element that does is rejected. *)
Definition yieldsNothing (view : PageView) (selector : JsString) : Prop :=
  query view selector = Resolved None
  \/ exists element e, query view selector = Resolved (Some element)
                       /\ elementScreenshot view element = Rejected e.

End Login.

(** ** Sample runs *)

Module Sample.

Import Login.

(** A landing-page request that succeeds at time 1000. *)
Definition creation : Creation :=
  mkCreation (lit "s1") (Resolved (7%nat, 7%nat)) (Resolved tt)
             (Resolved tt) (Resolved tt) 1000.

(** After it: the session object is at address 0, its monitor is timer
    1 and its expiry is timer 2. *)
Definition created : World := fst (createLoginSession creation initial).

Definition targetClosed : Thrown :=
  ThrownError (lit "TargetCloseError") (lit "Target closed").

Definition loggedIn : list BrowserCookie :=
  [mkCookie (lit "web_session") (lit "abc")].

(** Two monitor ticks are under way at once: the first reads the login
    cookie, the page is closed, and the read of the second is rejected. *)
Definition overlappingTicks : list Event :=
  [Create creation;
   Fires 1%nat;
   Fires 1%nat;
   CookiesSettle 3%nat 7000 (Resolved loggedIn);
   DestorySettles 5%nat (Resolved tt);
   CookiesSettle 4%nat 7001 (Rejected targetClosed)].

(** The hundredth monitor tick and the expiry timer are due together:
    the tick starts its read, the expiry runs and closes the page. *)
Definition expiryDuringTick : list Event :=
  [Create creation;
   Fires 1%nat;
   Fires 2%nat;
   DestorySettles 4%nat (Resolved tt)].

(** A page whose first QR selector matches an element that cannot be
    shot and whose second selector matches one that can. *)
Definition png : list byte := [x89; x50; x4e; x47]%byte.

Definition fallbackView : PageView :=
  mkView
    (fun selector =>
       if bool_decide (selector = lit ".login-container img")
       then Resolved (Some 1%nat)
       else if bool_decide (selector = lit ".login-qrcode img")
       then Resolved (Some 2%nat)
       else Resolved None)
    (fun element =>
       if bool_decide (element = 2%nat) then Resolved png
       else Rejected (ThrownError (lit "Error") (lit "Node is detached")))
    (Rejected (ThrownError (lit "Error") (lit "unused"))).

(** The HTTP fetch finds one note and no [has_more] flag; the browser
    cannot be opened. *)
Definition httpNotes : JsValue :=
  JsObject 1
    [(lit "data",
      JsObject 2
        [(lit "notes",
          JsArray 3 [JsObject 4 [(lit "note_id", JsStr (lit "a"))]])])].

Definition browserDown : Thrown :=
  ThrownError (lit "Error") (lit "net::ERR_CONNECTION_REFUSED").

Definition browserFails : Pipeline.Run :=
  Pipeline.mkRun httpNotes (Rejected browserDown) (Resolved tt)
    (Resolved tt) (Resolved false) [] (Resolved JsNull) (Resolved false)
    (Resolved tt) [] (Resolved JsNull) (Resolved tt).

End Sample.

(** ** util.ts: the text helpers *)

Module Text.

Import Pipeline.

(** [s.indexOf(needle)], [None] for -1. *)
Fixpoint indexOf (needle s : JsString) : option nat :=
  if startsWith needle s then Some 0%nat
  else match s with
       | [] => None
       | _ :: rest => option_map S (indexOf needle rest)
       end.

(** [s.search(/\s/)], [None] for -1. *)
Fixpoint searchWhiteSpace (s : JsString) : option nat :=
  match s with
  | [] => None
  | c :: rest =>
      if isWhiteSpace c then Some 0%nat
      else option_map S (searchWhiteSpace rest)
  end.

(** [index !== -1 ? s.slice(0, index) : s] *)
Definition sliceTo (index : option nat) (s : JsString) : JsString :=
  match index with
  | Some i => take i s
  | None => s
  end.

(** [s.replaceAll(c, replacement)] for a pattern of one code unit. *)
Definition replaceAllChar (c : N) (replacement s : JsString) : JsString :=
  flat_map (fun d => if N.eqb d c then replacement else [d]) s.

(** [s.replaceAll(/(\r\n|\r|\n)/g, replacement)] *)
Fixpoint replaceLineBreaks (replacement s : JsString) : JsString :=
  match s with
  | [] => []
  | c :: rest =>
      if N.eqb c 13 then
        match rest with
        | d :: rest' =>
            if N.eqb d 10 then replacement ++ replaceLineBreaks replacement rest'
            else replacement ++ replaceLineBreaks replacement rest
        | [] => replacement
        end
      else if N.eqb c 10 then replacement ++ replaceLineBreaks replacement rest
      else c :: replaceLineBreaks replacement rest
  end.

Definition formatText (text : JsString) : JsString :=
  replaceAllChar 9 (lit "&emsp;") (replaceLineBreaks (lit "<br>") text).


Definition imageViewMarker : JsString := lit "?imageView2".

(** [url] is [None] for [undefined] and [null]. *)
Definition sanitizeImageUrl (url : option JsString) : JsString :=
  match url with
  | None | Some [] => []
  | Some u =>
      match trim u with
      | [] => []
      | sanitized =>
          let sanitized := sliceTo (searchWhiteSpace sanitized) sanitized in
          sliceTo (indexOf imageViewMarker sanitized) sanitized
      end
  end.

End Text.

(** ** cookie.ts: sequences of calls *)

Module CookieCalls.

Import Cookie.

(** A call of one of the two exported functions that write the slot. *)
Inductive Call :=
| SetRuntime (now : Z) (cookie : option JsString)
| ClearRuntime.

Definition call (st : State) (c : Call) : State :=
  match c with
  | SetRuntime now cookie => setRuntimeCookie now cookie st
  | ClearRuntime => clearRuntimeCookie st
  end.

(** The module state after the calls, made in order since the module was
    loaded. *)
Definition after (calls : list Call) : State := fold_left call calls initial.

(** The slot holds a usable cookie or nothing: a stored cookie is not
    empty and has no white space around it, and the time of the update is
    there exactly with the cookie. *)
Definition tidy (st : State) : Prop :=
  match runtimeCookie st with
  | Some c => c <> [] /\ trim c = c /\ is_Some (runtimeUpdatedAt st)
  | None => runtimeUpdatedAt st = None
  end.

End CookieCalls.

(** ** util.ts: how merges compose *)

Module MergeOrder.

Import Collect.

(** The ids in [seen] after a run of the inner loop over [notes]. *)
Fixpoint seenAfter (seen : list JsValue) (notes : list JsValue)
    : list JsValue :=
  match notes with
  | [] => seen
  | note :: rest =>
      if negb (truthy note) then seenAfter seen rest
      else
        let noteId := noteIdOf note in
        if truthy noteId && setHas seen noteId then seenAfter seen rest
        else seenAfter (if truthy noteId then setAdd seen noteId else seen)
                       rest
  end.

End MergeOrder.

(** ** util.ts: runs of the collect pipeline *)

Module PipelineRuns.

Import Pipeline.

(** A run in which the browser answers every call: the page opens and
    loads, there is no captcha and no login page, the SSR state gives
    [ssr], the DOM gives [dom], and the teardown returns. *)
Definition smooth (run : Run) (ssr dom : JsValue) : Prop :=
  openPage run = Resolved tt /\ gotoPage run = Resolved tt
  /\ waitTab run = Resolved tt /\ captcha run = Resolved false
  /\ isLoginUrl (currentUrl run) = false
  /\ ssrCollect run = Resolved ssr
  /\ (exists locked, lockIcon run = Resolved locked)
  /\ scroll run = Resolved tt
  /\ domCollect run = Resolved dom
  /\ destory run = Resolved tt.

(** The HTTP result does not end the run by itself: it is falsy or does
    not say [has_more: false]. *)
Definition needsBrowser (run : Run) : Prop :=
  truthy (httpCollect run)
  && strictEquals (Collect.hasMoreCollectFlag (httpCollect run)) (JsBool false)
  = false.

(** The page is open and its teardown will return; the HTTP fetch gave
    nothing. *)
Definition emptyHanded (run : Run) : Prop :=
  truthy (httpCollect run) = false
  /\ openPage run = Resolved tt /\ gotoPage run = Resolved tt
  /\ waitTab run = Resolved tt /\ destory run = Resolved tt.

End PipelineRuns.

Module SampleRuns.

Import Pipeline.

Definition profileUrl : JsString :=
  lit "https://www.xiaohongshu.com/user/profile/u1".

Definition note (addr : N) (key id : string) : JsValue :=
  JsObject addr [(lit key, JsStr (lit id))].

(** The SSR state holds notes a and b, one API payload holds b and c, the
    DOM holds c and d; the HTTP fetch was not made (no cookie). *)
Definition smoothRun : Run :=
  mkRun JsNull (Resolved tt) (Resolved tt) (Resolved tt) (Resolved false)
    profileUrl
    (Resolved (JsArray 10 [note 11 "note_id" "a"; note 12 "note_id" "b"]))
    (Resolved false) (Resolved tt)
    [JsObject 20
       [(lit "data",
         JsObject 21
           [(lit "notes",
             JsArray 22 [note 23 "noteId" "b"; note 24 "noteId" "c"])])]]
    (Resolved (JsArray 30 [note 31 "note_id" "c"; note 32 "note_id" "d"]))
    (Resolved tt).

(** The site answers with its captcha page. *)
Definition captchaRun : Run :=
  mkRun JsNull (Resolved tt) (Resolved tt) (Resolved tt) (Resolved true)
    profileUrl (Resolved JsNull) (Resolved false) (Resolved tt) []
    (Resolved JsNull) (Resolved tt).


End SampleRuns.

(** ** Sample worlds of the login route *)

Module SampleWorlds.

Import Login.

(** The session of [Sample.creation] has expired and its page is closed;
    a monitor tick that started before is still waiting for its cookies.
    The removal timer is timer 5. *)
Definition expiredWorld : World :=
  default initial (run initial Sample.expiryDuringTick).

(** A second landing-page request. *)
Definition secondCreation : Creation :=
  mkCreation (lit "s2") (Resolved (8%nat, 8%nat)) (Resolved tt)
             (Resolved tt) (Resolved tt) 400000.

(** A monitor tick of the session of [Sample.creation] awaits its cookies
    under key 3. *)
Definition tickingWorld : World :=
  default initial (run initial [Create Sample.creation; Fires 1%nat]).

(** A page on which every lookup of an element is rejected. *)
Definition brokenView : PageView :=
  mkView (fun _ => Rejected Sample.targetClosed)
         (fun _ => Resolved Sample.png) (Resolved Sample.png).

End SampleWorlds.
(** * Properties *)

(** ** The runtime cookie *)

Lemma trimStart_blank (s : JsString) :
  forallb isWhiteSpace s = true -> trimStart s = [].
Proof.
  induction s as [|c s IH]; simpl; [reflexivity|].
  intros H. apply andb_true_iff in H as [Hc Hs]. rewrite Hc. auto.
Qed.

Lemma trimStart_nil_blank (s : JsString) :
  trimStart s = [] -> forallb isWhiteSpace s = true.
Proof.
  induction s as [|c s IH]; simpl; [reflexivity|].
  destruct (isWhiteSpace c); [auto | discriminate].
Qed.

Lemma trimStart_head (s : JsString) c rest :
  trimStart s = c :: rest -> isWhiteSpace c = false.
Proof.
  induction s as [|d s IH]; simpl; [discriminate|].
  destruct (isWhiteSpace d) eqn:Hd; [auto|].
  intros H. injection H as -> _. exact Hd.
Qed.

Lemma trim_blank (s : JsString) :
  forallb isWhiteSpace s = true -> trim s = [].
Proof.
  intros H. unfold trim, trimEnd. rewrite (trimStart_blank s H). reflexivity.
Qed.

Lemma forallb_rev_ws (s : JsString) :
  forallb isWhiteSpace (rev s) = forallb isWhiteSpace s.
Proof.
  induction s as [|c s IH]; simpl; [reflexivity|].
  rewrite forallb_app, IH. simpl. rewrite andb_true_r. apply andb_comm.
Qed.

Lemma trim_nil_blank (s : JsString) :
  trim s = [] -> forallb isWhiteSpace s = true.
Proof.
  unfold trim, trimEnd. intros H.
  destruct (trimStart s) as [|c rest] eqn:Hs.
  - apply trimStart_nil_blank. exact Hs.
  - exfalso. pose proof (trimStart_head _ _ _ Hs) as Hc.
    assert (Hr : trimStart (rev (c :: rest)) = []).
    { destruct (trimStart (rev (c :: rest))) eqn:E; [reflexivity|].
      simpl in H. apply app_eq_nil in H as [_ H]. discriminate. }
    apply trimStart_nil_blank in Hr. rewrite forallb_rev_ws in Hr.
    simpl in Hr. rewrite Hc in Hr. discriminate.
Qed.

Example trim_sample : trim (lit "  a b " ++ [10; 8195; 65279]%N) = lit "a b".
Proof. reflexivity. Qed.

Example zero_width_space_is_kept : trim [8203%N] = [8203%N].
Proof. reflexivity. Qed.

(** C10. The active cookie is the runtime cookie when one is set and the
    configured cookie otherwise; [setRuntimeCookie] called with
    [undefined], the empty string or a string of white space only leaves
    the slot as [clearRuntimeCookie] does, so that [getCookieValue] falls
    back to the configured cookie; called with any other string it stores
    the trimmed string, which [getCookieValue] then returns whatever the
    configuration holds. *)
Theorem getCookieValue_prefers_runtime :
  forall (cfg : option JsString) (st : Cookie.State) (now : Z)
         (arg : option JsString),
    Cookie.getCookieValue cfg st
      = from_option Some cfg (Cookie.runtimeCookie st)
    /\ (if Cookie.isBlank arg
        then Cookie.setRuntimeCookie now arg st = Cookie.clearRuntimeCookie st
             /\ Cookie.runtimeCookie (Cookie.setRuntimeCookie now arg st) = None
             /\ Cookie.getCookieValue cfg (Cookie.setRuntimeCookie now arg st)
                = cfg
        else exists s, arg = Some s /\ trim s <> []
             /\ Cookie.getCookieValue cfg (Cookie.setRuntimeCookie now arg st)
                = Some (trim s)).
Proof.
  intros cfg st now arg. split.
  - unfold Cookie.getCookieValue. destruct (Cookie.runtimeCookie st); reflexivity.
  - destruct arg as [s|]; simpl; [|auto].
    destruct (forallb isWhiteSpace s) eqn:Hb.
    + unfold Cookie.setRuntimeCookie, Cookie.normalizeCookie.
      rewrite (trim_blank s Hb). destruct s; auto.
    + exists s. split; [reflexivity|].
      assert (Hne : trim s <> []).
      { intros H. apply trim_nil_blank in H. congruence. }
      split; [exact Hne|].
      unfold Cookie.setRuntimeCookie, Cookie.normalizeCookie, Cookie.getCookieValue.
      destruct s as [|c s]; [discriminate|].
      destruct (trim (c :: s)); [congruence | reflexivity].
Qed.


(** ** Merging collect notes *)

(** [sameValueZero] is an equivalence that respects truthiness. *)

Lemma numberSameValueZero_eq x y :
  numberSameValueZero x y = true ->
  x = y \/ (exists s t, x = S754_zero s /\ y = S754_zero t).
Proof.
  destruct x as [s| s| |s m e], y as [t| t| |t n f]; simpl;
    try discriminate; eauto.
  - intros H. apply Bool.eqb_prop in H. left. congruence.
  - intros H. apply andb_true_iff in H as [H He].
    apply andb_true_iff in H as [Hs Hm].
    apply Bool.eqb_prop in Hs. apply Pos.eqb_eq in Hm.
    apply Z.eqb_eq in He. left. congruence.
Qed.

Lemma numberSameValueZero_refl x : numberSameValueZero x x = true.
Proof.
  destruct x as [s| s| |s m e]; simpl; auto using Bool.eqb_reflx.
  rewrite Bool.eqb_reflx, Pos.eqb_refl, Z.eqb_refl. reflexivity.
Qed.

Lemma sameValueZero_refl a : sameValueZero a a = true.
Proof.
  destruct a; simpl; auto using Bool.eqb_reflx, numberSameValueZero_refl,
    N.eqb_refl.
  apply bool_decide_eq_true. reflexivity.
Qed.

Lemma sameValueZero_sym a b : sameValueZero a b = sameValueZero b a.
Proof.
  destruct a, b; simpl; try reflexivity.
  - destruct b, b0; reflexivity.
  - destruct x as [s| s| |s m e], x0 as [t| t| |t n f]; simpl;
      try reflexivity.
    + destruct s, t; reflexivity.
    + rewrite (Pos.eqb_sym m n), (Z.eqb_sym e f).
      destruct s, t; reflexivity.
  - apply bool_decide_ext. split; congruence.
  - apply N.eqb_sym.
  - apply N.eqb_sym.
Qed.

Lemma sameValueZero_trans a b c :
  sameValueZero a b = true -> sameValueZero b c = true ->
  sameValueZero a c = true.
Proof.
  destruct a, b; simpl; try discriminate; destruct c; simpl;
    try discriminate; auto.
  - intros H1 H2. apply Bool.eqb_prop in H1, H2. subst.
    apply Bool.eqb_reflx.
  - intros H1 H2.
    apply numberSameValueZero_eq in H1 as [->|(s & t & -> & ->)]; [exact H2|].
    apply numberSameValueZero_eq in H2 as [<-|(s' & t' & _ & ->)];
      reflexivity.
  - intros H1 H2. apply bool_decide_eq_true in H1, H2.
    apply bool_decide_eq_true. congruence.
  - intros H1 H2. apply N.eqb_eq in H1, H2. apply N.eqb_eq. congruence.
  - intros H1 H2. apply N.eqb_eq in H1, H2. apply N.eqb_eq. congruence.
Qed.

Lemma sameValueZero_truthy a b :
  sameValueZero a b = true -> truthy a = truthy b.
Proof.
  destruct a, b; simpl; try discriminate; auto.
  - intros H. apply Bool.eqb_prop in H. exact H.
  - intros H.
    apply numberSameValueZero_eq in H as [->|(s & t & -> & ->)]; reflexivity.
  - intros H. apply bool_decide_eq_true in H. subst. reflexivity.
Qed.

Lemma setHas_app seen more v :
  setHas (seen ++ more) v = setHas seen v || setHas more v.
Proof. apply existsb_app. Qed.

Lemma setHas_same seen a b :
  sameValueZero a b = true -> setHas seen a = setHas seen b.
Proof.
  intros Hab. induction seen as [|m seen IH]; simpl; [reflexivity|].
  rewrite IH. f_equal.
  destruct (sameValueZero m a) eqn:Hma.
  - symmetry. eapply sameValueZero_trans; eauto.
  - destruct (sameValueZero m b) eqn:Hmb; [|reflexivity].
    rewrite sameValueZero_sym in Hab.
    rewrite <- Hma. eapply sameValueZero_trans; eauto.
Qed.

Lemma setHas_add seen a b :
  setHas (setAdd seen a) b = setHas seen b || sameValueZero a b.
Proof.
  unfold setAdd. destruct (setHas seen a) eqn:Ha.
  - destruct (sameValueZero a b) eqn:Hab; [|rewrite orb_false_r; reflexivity].
    rewrite <- (setHas_same seen a b Hab), Ha. reflexivity.
  - rewrite setHas_app. simpl. rewrite orb_false_r. reflexivity.
Qed.

Lemma fold_mergeNote notes : forall merged seen,
  fst (fold_left Collect.mergeNote notes (merged, seen))
  = merged ++ Collect.kept seen notes.
Proof.
  induction notes as [|note rest IH]; intros merged seen; simpl.
  - rewrite app_nil_r. reflexivity.
  - destruct (truthy note); simpl; [|apply IH].
    destruct (truthy (Collect.noteIdOf note) && setHas seen (Collect.noteIdOf note));
      [apply IH|].
    rewrite IH, <- app_assoc. reflexivity.
Qed.

Lemma fold_mergeSource sources : forall acc,
  fold_left Collect.mergeSource sources acc
  = fold_left Collect.mergeNote (Collect.contributed sources) acc.
Proof.
  induction sources as [|source rest IH]; intros acc; simpl; [reflexivity|].
  unfold Collect.contributed in *. simpl. rewrite fold_left_app. apply IH.
Qed.

Lemma mergeCollectSources_kept addr sources :
  Collect.mergeCollectSources addr sources
  = match Collect.kept [] (Collect.contributed sources) with
    | [] => JsNull
    | merged => Collect.collectOf addr merged
    end.
Proof.
  unfold Collect.mergeCollectSources.
  pose proof (fold_mergeNote (Collect.contributed sources) [] []) as H.
  rewrite <- fold_mergeSource in H.
  destruct (fold_left Collect.mergeSource sources ([], [])) as [merged seen].
  simpl in H. subst merged.
  destruct (Collect.kept [] (Collect.contributed sources)); reflexivity.
Qed.

Lemma filterBoolean_truthy items :
  Forall (fun note => truthy note = true) (Collect.filterBoolean items).
Proof.
  apply List.Forall_forall. intros note H.
  apply filter_In in H. tauto.
Qed.

Lemma selectCollectNotes_truthy collect :
  Forall (fun note => truthy note = true) (Collect.selectCollectNotes collect).
Proof.
  unfold Collect.selectCollectNotes.
  repeat match goal with
         | |- Forall _ [] => constructor
         | |- Forall _ (Collect.filterBoolean _) => apply filterBoolean_truthy
         | |- Forall _ (if ?b then _ else _) => destruct b
         | |- Forall _ (match ?v with _ => _ end) => destruct v
         end.
Qed.

Lemma contributed_truthy sources :
  Forall (fun note => truthy note = true) (Collect.contributed sources).
Proof.
  unfold Collect.contributed.
  induction sources as [|source rest IH]; simpl; [constructor|].
  apply Forall_app. split; [apply selectCollectNotes_truthy | exact IH].
Qed.

Lemma kept_sublist notes : forall seen, sublist (Collect.kept seen notes) notes.
Proof.
  induction notes as [|note rest IH]; intros seen; simpl; [constructor|].
  destruct (truthy note); simpl; [|constructor; apply IH].
  destruct (truthy (Collect.noteIdOf note) && setHas seen (Collect.noteIdOf note));
    constructor; apply IH.
Qed.

Lemma kept_nil notes :
  Forall (fun note => truthy note = true) notes ->
  Collect.kept [] notes = [] -> notes = [].
Proof.
  destruct notes as [|note rest]; [reflexivity|].
  intros H. apply Forall_inv in H. simpl. rewrite H. simpl.
  rewrite andb_false_r. discriminate.
Qed.

(** First seen wins: of the notes bearing a truthy id [k], the loop keeps
    the first one unless [k] was seen before; notes bearing a falsy id are
    all kept. *)
Lemma kept_bearsId k notes : forall seen,
  Forall (fun note => truthy note = true) notes ->
  List.filter (Collect.bearsId k) (Collect.kept seen notes)
  = if truthy k
    then if setHas seen k then []
         else take 1 (List.filter (Collect.bearsId k) notes)
    else List.filter (Collect.bearsId k) notes.
Proof.
  induction notes as [|note rest IH]; intros seen Hall.
  - simpl. destruct (truthy k), (setHas seen k); reflexivity.
  - apply Forall_cons_iff in Hall as [Hnote Hrest].
    specialize (fun seen => IH seen Hrest).
    simpl. rewrite Hnote. simpl.
    set (noteId := Collect.noteIdOf note).
    destruct (Collect.bearsId k note) eqn:Hk; unfold Collect.bearsId in Hk;
      fold noteId in Hk.
    + rewrite (sameValueZero_truthy _ _ Hk), (setHas_same seen _ _ Hk).
      destruct (truthy k); simpl.
      * destruct (setHas seen k) eqn:Hsk; simpl.
        -- rewrite IH, Hsk. reflexivity.
        -- unfold Collect.bearsId at 1. fold noteId. rewrite Hk.
           rewrite IH, setHas_add, Hk, orb_true_r. reflexivity.
      * unfold Collect.bearsId at 1. fold noteId. rewrite Hk.
        rewrite IH. reflexivity.
    + destruct (truthy noteId && setHas seen noteId) eqn:Hskip.
      * apply IH.
      * simpl. unfold Collect.bearsId at 1. fold noteId. rewrite Hk.
        rewrite IH.
        destruct (truthy noteId); [|reflexivity].
        rewrite setHas_add, Hk, orb_false_r. reflexivity.
Qed.

Lemma kept_hasNoId notes : forall seen,
  Forall (fun note => truthy note = true) notes ->
  List.filter Collect.hasNoId (Collect.kept seen notes)
  = List.filter Collect.hasNoId notes.
Proof.
  induction notes as [|note rest IH]; intros seen Hall; [reflexivity|].
  apply Forall_cons_iff in Hall as [Hnote Hrest].
  simpl. rewrite Hnote. simpl. unfold Collect.hasNoId at 2 3.
  destruct (truthy (Collect.noteIdOf note)) eqn:Hid; simpl.
  - destruct (setHas seen (Collect.noteIdOf note)); simpl.
    + apply IH. assumption.
    + unfold Collect.hasNoId at 1. rewrite Hid. simpl. apply IH. assumption.
  - unfold Collect.hasNoId at 1. rewrite Hid. simpl. f_equal.
    apply IH. assumption.
Qed.

Lemma mergedNotes_collectOf addr merged :
  Collect.mergedNotes (Collect.collectOf addr merged) = merged.
Proof. reflexivity. Qed.

(** C9. [mergeCollectSources] merges by note id, first seen wins. For every
    list of sources and every value [k]: the result is [null] exactly when
    the sources contribute no note, and otherwise the object
    [{data: {notes: merged}}]; [merged] keeps notes in source order; of
    the contributed notes bearing the id [k] (the first truthy one of
    [note_id], [noteId], [id]) it holds exactly the first; and every
    contributed note that carries no id is kept. *)
Theorem mergeCollectSources_first_seen_wins :
  forall (addr : N) (sources : list JsValue) (k : JsValue),
    let all := Collect.contributed sources in
    let result := Collect.mergeCollectSources addr sources in
    let merged := Collect.mergedNotes result in
    (result = JsNull <-> all = [])
    /\ (result = JsNull \/ result = Collect.collectOf addr merged)
    /\ sublist merged all
    /\ List.filter (Collect.bearsId k) merged
       = (if truthy k
          then take 1 (List.filter (Collect.bearsId k) all)
          else List.filter (Collect.bearsId k) all)
    /\ List.filter Collect.hasNoId merged = List.filter Collect.hasNoId all.
Proof.
  intros addr sources k all result merged.
  pose proof (contributed_truthy sources) as Hall. fold all in Hall.
  assert (Hm : merged = Collect.kept [] all /\
               (result = JsNull <-> all = []) /\
               (result = JsNull \/ result = Collect.collectOf addr merged)).
  { subst merged result. rewrite mergeCollectSources_kept. fold all.
    destruct (Collect.kept [] all) as [|note rest] eqn:Hkept.
    - split; [reflexivity|]. split; [|left; reflexivity].
      split; [intros _; apply kept_nil; assumption | reflexivity].
    - split; [reflexivity|]. split; [|right; reflexivity].
      split; [discriminate|]. intros E. rewrite E in Hkept. discriminate. }
  destruct Hm as (-> & Hnull & Hshape).
  split; [exact Hnull|]. split; [exact Hshape|].
  split; [apply kept_sublist|].
  split; [|apply kept_hasNoId; assumption].
  rewrite kept_bearsId by assumption. simpl.
  destruct (truthy k); reflexivity.
Qed.

(** ** The login sessions *)

Import Login.

(** Unfolds the assignments and the timer and scheduler primitives and
    reads the session object back from the heap. *)
Ltac world_simpl :=
  repeat first
    [ progress cbn [heap loginSessions timers suspended runtime acquired
                    destroyed next set_heap set_loginSessions set_timers
                    set_suspended set_runtime set_acquired set_destroyed
                    set_next assign arm disarm suspend unpark callDestory
                    fst snd id status createdAt page destory cookie error
                    monitor expireTimer removalTimer set_status set_page
                    set_destory set_cookie set_error set_monitor
                    set_expireTimer set_removalTimer fmap option_fmap
                    option_map]
    | rewrite lookup_alter_eq
    | rewrite lookup_insert_eq
    | match goal with H : heap _ !! _ = Some _ |- _ => rewrite H end ].








Lemma SESSION_TTL_value : SESSION_TTL = 300000.
Proof. reflexivity. Qed.

Lemma cleanup_keeps_payload (w : World) (l : Loc) (s : LoginSession)
    (closed : Outcome unit) :
  heap w !! l = Some s ->
  loginSessions (cleanupSessionResources l closed w) = loginSessions w
  /\ exists s1,
       heap (cleanupSessionResources l closed w) !! l = Some s1
       /\ id s1 = id s /\ status s1 = status s /\ createdAt s1 = createdAt s
       /\ cookie s1 = cookie s /\ error s1 = error s.
Proof.
  intros Hs. destruct s as [i st c pg ds ck er mo ex rm].
  unfold cleanupSessionResources, cleanupBegin, clearMonitor.
  world_simpl.
  destruct mo as [tm|]; unfold clearExpireTimer; world_simpl;
    (destruct ex as [te|]; world_simpl);
    (destruct pg as [pg|], ds as [ds|]; world_simpl);
    unfold cleanupResume, armRemoval; world_simpl;
    (destruct rm as [rm|]; world_simpl);
    (split; [reflexivity|]; eexists; repeat split; reflexivity).
Qed.

(** C6. Status polling. For an id that is not in the table the answer is
    404 with [{status: 'missing'}]. Otherwise it is 200 with the id and the
    status of the session, its cookie when the status is [success] and no
    cookie otherwise, its error if it has one, and [expiresAt], the
    creation time plus the TTL of 300000 ms. The poll changes nothing in
    the state, and after a completed cleanup, until the removal timer
    fires, the answer is the one given before the cleanup. *)
Theorem serveStatus_projection :
  forall (sessionId : JsString) (w : World),
    (getSession sessionId w = None ->
       serveStatus sessionId w = Json 404 MissingBody)
    /\ (forall l s, getSession sessionId w = Some (l, s) ->
          (exists shown,
             serveStatus sessionId w
             = Json 200 (StatusBody (id s) (status s) shown (error s)
                                    (createdAt s + 300000))
             /\ (status s = success -> shown = cookie s)
             /\ (status s <> success -> shown = None))
          /\ forall closed,
               serveStatus sessionId (cleanupSessionResources l closed w)
               = serveStatus sessionId w)
    /\ step w (PollStatus sessionId) = Some w.
Proof.
  intros sessionId w. split; [|split; [|reflexivity]].
  - intros H. unfold serveStatus. rewrite H. reflexivity.
  - intros l s H. split.
    + unfold serveStatus. rewrite H.
      exists (match status s with success => cookie s | _ => None end).
      split; [reflexivity|].
      destruct (status s); split; congruence.
    + intros closed. unfold serveStatus, getSession in *.
      destruct (loginSessions w !! sessionId) as [l'|] eqn:Hl; [|discriminate].
      destruct (heap w !! l') as [s'|] eqn:Hs; [|discriminate].
      injection H as -> ->.
      destruct (cleanup_keeps_payload w l s closed Hs)
        as (Htable & s1 & Hs1 & Hid & Hst & Hat & Hck & Her).
      rewrite Htable, Hl, Hs1, Hid, Hst, Hat, Hck, Her. reflexivity.
Qed.

Lemma serveStatus_projection_witness :
  getSession (lit "nobody") Sample.created = None
  /\ serveStatus (lit "nobody") Sample.created = Json 404 MissingBody.
Proof.
  assert (H : getSession (lit "nobody") Sample.created = None)
    by (vm_compute; reflexivity).
  split; [exact H|].
  exact (proj1 (serveStatus_projection (lit "nobody") Sample.created) H).
Defined.

(** C7. The QR route keeps its two failures apart. The answer is the 404
    [session_inactive] error exactly when the session is missing, not
    [pending], or without a page. For a pending session with a page, a
    capture that throws gives the 500 [qrcode_unavailable] error with the
    message of what was thrown, and a capture that returns gives 200 with
    the PNG bytes; neither is the [session_inactive] answer. The request
    changes nothing in the state. *)
Theorem serveQRCode_failures_distinct :
  forall (browser : Page -> PageView) (sessionId : JsString) (w : World),
    (inactive sessionId w <->
       serveQRCode browser sessionId w
       = Json 404 (ErrorBody (lit "session_inactive") None))
    /\ (forall l s p,
          getSession sessionId w = Some (l, s) ->
          status s = pending -> page s = Some p ->
          (forall e, captureQRCode (browser p) = Rejected e ->
             serveQRCode browser sessionId w
             = Json 500 (ErrorBody (lit "qrcode_unavailable")
                                   (Some (errorMessage e))))
          /\ (forall png, captureQRCode (browser p) = Resolved png ->
                serveQRCode browser sessionId w
                = Binary (lit "image/png") png))
    /\ step w (RequestQRCode browser sessionId) = Some w.
Proof.
  intros browser sessionId w. split; [|split; [|reflexivity]].
  - unfold inactive, serveQRCode.
    destruct (getSession sessionId w) as [[l s]|]; [|split; auto].
    destruct (status s) eqn:Hst, (page s) as [p|] eqn:Hp;
      try (split; [reflexivity|]; intros _; right; exists l, s;
           split; [reflexivity|]; (left; congruence) || (right; assumption)).
    split.
    + intros [H|(l' & s' & H & [Hn|Hn])]; [discriminate| |];
        injection H as <- <-; congruence.
    + destruct (captureQRCode (browser p)); discriminate.
  - intros l s p H Hst Hp. unfold serveQRCode. rewrite H, Hst, Hp.
    split; intros x Hx; rewrite Hx; reflexivity.
Qed.

Lemma serveQRCode_failures_distinct_witness :
  inactive (lit "nobody") Sample.created
  /\ serveQRCode (fun _ => Sample.fallbackView) (lit "nobody") Sample.created
     = Json 404 (ErrorBody (lit "session_inactive") None).
Proof.
  assert (H : inactive (lit "nobody") Sample.created)
    by (left; vm_compute; reflexivity).
  split; [exact H|].
  exact (proj1 (proj1 (serveQRCode_failures_distinct
                         (fun _ => Sample.fallbackView) (lit "nobody")
                         Sample.created)) H).
Defined.

Lemma captureFrom_skip (view : PageView) (pre rest : list JsString) :
  Forall (yieldsNothing view) pre ->
  captureFrom view (pre ++ rest) = captureFrom view rest.
Proof.
  induction 1 as [|selector pre Hsel _ IH]; simpl; [reflexivity|].
  destruct Hsel as [Hq|(element & e & Hq & Hshot)]; rewrite Hq.
  - exact IH.
  - rewrite Hshot. exact IH.
Qed.

Lemma captureFrom_none (view : PageView) (sels : list JsString) :
  Forall (fun selector => query view selector = Resolved None) sels ->
  captureFrom view sels = pageScreenshot view.
Proof.
  induction 1 as [|selector sels Hsel _ IH]; simpl; [reflexivity|].
  rewrite Hsel. exact IH.
Qed.

(** C8. The QR capture falls back along its list of selectors. For a
    pending session with a page: if every selector before some selector
    of the list either matches nothing or matches an element whose
    screenshot throws, and that selector matches an element whose
    screenshot succeeds, the answer is 200 with the PNG bytes of that
    element; and if no selector of the list matches, the capture is the
    full-page screenshot, whose bytes are the answer when it succeeds. *)
Theorem captureQRCode_falls_back :
  forall (browser : Page -> PageView) (sessionId : JsString) (w : World)
         (l : Loc) (s : LoginSession) (p : Page),
    getSession sessionId w = Some (l, s) ->
    status s = pending -> page s = Some p ->
    (forall pre selector post element png,
       selectors = pre ++ selector :: post ->
       Forall (yieldsNothing (browser p)) pre ->
       query (browser p) selector = Resolved (Some element) ->
       elementScreenshot (browser p) element = Resolved png ->
       captureQRCode (browser p) = Resolved png
       /\ serveQRCode browser sessionId w
          = Binary (lit "image/png") png)
    /\ (Forall (fun selector => query (browser p) selector = Resolved None)
               selectors ->
        captureQRCode (browser p) = pageScreenshot (browser p)
        /\ forall png, pageScreenshot (browser p) = Resolved png ->
             serveQRCode browser sessionId w
             = Binary (lit "image/png") png).
Proof.
  intros browser sessionId w l s p Hget Hst Hp.
  assert (Hserve : forall png, captureQRCode (browser p) = Resolved png ->
            serveQRCode browser sessionId w
            = Binary (lit "image/png") png).
  { intros png H. unfold serveQRCode. rewrite Hget, Hst, Hp, H. reflexivity. }
  split.
  - intros pre selector post element png Hsplit Hpre Hq Hshot.
    assert (H : captureQRCode (browser p) = Resolved png).
    { unfold captureQRCode. rewrite Hsplit, captureFrom_skip by exact Hpre.
      simpl. rewrite Hq, Hshot. reflexivity. }
    split; [exact H | apply Hserve, H].
  - intros Hnone.
    assert (H : captureQRCode (browser p) = pageScreenshot (browser p))
      by (apply captureFrom_none, Hnone).
    split; [exact H|]. intros png Hpng. apply Hserve. congruence.
Qed.

Lemma captureQRCode_falls_back_witness :
  getSession (lit "s1") Sample.created
  = Some (0%nat, mkSession (lit "s1") pending 1000 (Some 7%nat) (Some 7%nat)
                           None None (Some 1%nat) (Some 2%nat) None)
  /\ yieldsNothing Sample.fallbackView (lit ".login-container img")
  /\ serveQRCode (fun _ => Sample.fallbackView) (lit "s1") Sample.created
     = Binary (lit "image/png") Sample.png.
Proof.
  assert (Hget : getSession (lit "s1") Sample.created
                 = Some (0%nat,
                         mkSession (lit "s1") pending 1000 (Some 7%nat)
                                   (Some 7%nat) None None (Some 1%nat)
                                   (Some 2%nat) None))
    by (vm_compute; reflexivity).
  assert (Hfirst : yieldsNothing Sample.fallbackView
                     (lit ".login-container img")).
  { right. exists 1%nat, (ThrownError (lit "Error") (lit "Node is detached")).
    split; vm_compute; reflexivity. }
  split; [exact Hget|]. split; [exact Hfirst|].
  refine (proj2 (proj1 (captureQRCode_falls_back
                          (fun _ => Sample.fallbackView) (lit "s1")
                          Sample.created _ _ 7%nat Hget _ _)
                   [lit ".login-container img"] (lit ".login-qrcode img")
                   _ 2%nat Sample.png _ _ _ _)).
  - reflexivity.
  - reflexivity.
  - reflexivity.
  - constructor; [exact Hfirst | constructor].
  - vm_compute; reflexivity.
  - vm_compute; reflexivity.
Defined.

Lemma cleanupResume_releases (w : World) (l : Loc) (s : LoginSession)
    (closed : Outcome unit) :
  heap w !! l = Some s -> monitor s = None -> expireTimer s = None ->
  exists s1,
    heap (cleanupResume l closed w) !! l = Some s1 /\ released s1.
Proof.
  intros Hs Hm He. destruct s as [i st c pg ds ck er mo ex rm].
  cbn in Hm, He. subst mo ex.
  unfold cleanupResume, armRemoval, released. world_simpl.
  destruct rm as [rm|]; world_simpl; eexists; repeat split; eauto.
Qed.

(** *** What a step of the scheduler can change *)

Lemma gentle_id : gentle (fun s => s).
Proof. intros s. auto 10. Qed.

Lemma gentle_compose f g : gentle f -> gentle g -> gentle (f ∘ g).
Proof.
  intros Hf Hg s. specialize (Hg s). specialize (Hf (g s)).
  unfold compose. intuition congruence.
Qed.

Lemma gently_refl l w : gently l w w.
Proof.
  split; [lia|]. exists (fun s => s). split; [apply gentle_id|].
  symmetry. apply alter_id. reflexivity.
Qed.

Lemma gently_trans l w1 w2 w3 : gently l w1 w2 -> gently l w2 w3 -> gently l w1 w3.
Proof.
  intros [Hn1 (f & Hf & H1)] [Hn2 (g & Hg & H2)].
  split; [lia|]. exists (g ∘ f). split; [apply gentle_compose; assumption|].
  rewrite H2, H1. apply alter_alter_eq.
Qed.

Lemma gently_assign l f w : gentle f -> gently l w (assign l f w).
Proof.
  intros Hf. split; [simpl; lia|]. exists f. split; [exact Hf|]. reflexivity.
Qed.

Lemma gently_same_heap l w w' :
  heap w' = heap w -> (next w <= next w')%nat -> gently l w w'.
Proof.
  intros Hh Hn. split; [exact Hn|]. exists (fun s => s). split; [apply gentle_id|].
  rewrite Hh. symmetry. apply alter_id. reflexivity.
Qed.

Lemma gentle_set_monitor : gentle (set_monitor None).
Proof. intros []. cbn. auto 10. Qed.
Lemma gentle_set_expireTimer : gentle (set_expireTimer None).
Proof. intros []. cbn. auto 10. Qed.
Lemma gentle_set_removalTimer t : gentle (set_removalTimer t).
Proof. intros []. cbn. auto 10. Qed.
Lemma gentle_close : gentle (set_destory None ∘ set_page None).
Proof. intros []. cbn. unfold paired. cbn. intuition. Qed.

Lemma clearMonitor_gently l w : gently l w (clearMonitor l w).
Proof.
  unfold clearMonitor. destruct (heap w !! l) as [s|]; [|apply gently_refl].
  destruct (monitor s); [|apply gently_refl].
  eapply gently_trans; [|apply gently_assign, gentle_set_monitor].
  apply gently_same_heap; simpl; [reflexivity | lia].
Qed.

Lemma clearExpireTimer_gently l w : gently l w (clearExpireTimer l w).
Proof.
  unfold clearExpireTimer. destruct (heap w !! l) as [s|]; [|apply gently_refl].
  destruct (expireTimer s); [|apply gently_refl].
  eapply gently_trans; [|apply gently_assign, gentle_set_expireTimer].
  apply gently_same_heap; simpl; [reflexivity | lia].
Qed.

Lemma armRemoval_gently l w : gently l w (armRemoval l w).
Proof.
  unfold armRemoval. destruct (heap w !! l) as [s|]; [|apply gently_refl].
  destruct (removalTimer s); [apply gently_refl|].
  cbn [arm].
  eapply gently_trans; [|apply gently_assign, gentle_set_removalTimer].
  apply gently_same_heap; simpl; [reflexivity | lia].
Qed.

Lemma cleanupBegin_gently l w : gently l w (fst (cleanupBegin l w)).
Proof.
  unfold cleanupBegin.
  assert (H : gently l w (clearExpireTimer l (clearMonitor l w))).
  { eapply gently_trans; [apply clearMonitor_gently|apply clearExpireTimer_gently]. }
  destruct (heap (clearExpireTimer l (clearMonitor l w)) !! l) as [s|]; [|exact H].
  destruct (page s), (destory s); cbn [fst suspend];
    try (eapply gently_trans; [exact H|apply armRemoval_gently]).
  eapply gently_trans; [exact H|].
  apply gently_same_heap; simpl; [reflexivity | lia].
Qed.

Lemma cleanupResume_gently l closed w : gently l w (cleanupResume l closed w).
Proof.
  unfold cleanupResume.
  eapply gently_trans; [|apply armRemoval_gently].
  split; [simpl; lia|]. exists (set_destory None ∘ set_page None).
  split; [apply gentle_close|]. simpl. apply alter_alter_eq.
Qed.

Lemma gently_after l g w w1 w' :
  heap w1 = alter g l (heap w) -> (next w <= next w1)%nat -> gently l w1 w' ->
  (next w <= next w')%nat
  /\ exists f, gentle f /\ heap w' = alter (f ∘ g) l (heap w).
Proof.
  intros H1 Hn [Hn' (f & Hf & H2)]. split; [lia|].
  exists f. split; [exact Hf|]. rewrite H2, H1. apply alter_alter_eq.
Qed.

(** Every step either changes one session object as [Change] says or is
    a creation, which puts a new [pending] session at the next address. *)
Lemma step_change w ev w' :
  step w ev = Some w' ->
  (next w <= next w')%nat
  /\ ((exists l g, Change w ev l g /\ heap w' = alter g l (heap w))
      \/ (exists env p d tm te,
            ev = Create env /\ (next w < next w')%nat
            /\ heap w' = <[next w := mkSession (uuid env) pending (now env)
                                      (Some p) (Some d) None None (Some tm)
                                      (Some te) None]> (heap w))).
Proof.
  assert (Hsame : forall w', heap w' = heap w -> (next w <= next w')%nat ->
            (next w <= next w')%nat
            /\ ((exists l g, Change w ev l g /\ heap w' = alter g l (heap w))
                \/ (exists env p d tm te,
                      ev = Create env /\ (next w < next w')%nat
                      /\ heap w' = <[next w := mkSession (uuid env) pending
                                      (now env) (Some p) (Some d) None None
                                      (Some tm) (Some te) None]> (heap w)))).
  { intros w0 Hh Hn. split; [exact Hn|]. left.
    exists 0%nat, (fun s => s). split; [apply change_gentle, gentle_id|].
    rewrite Hh. symmetry. apply alter_id. reflexivity. }
  assert (Hgently : forall l w', gently l w w' ->
            (next w <= next w')%nat
            /\ ((exists l g, Change w ev l g /\ heap w' = alter g l (heap w))
                \/ (exists env p d tm te,
                      ev = Create env /\ (next w < next w')%nat
                      /\ heap w' = <[next w := mkSession (uuid env) pending
                                      (now env) (Some p) (Some d) None None
                                      (Some tm) (Some te) None]> (heap w)))).
  { intros l w0 [Hn (f & Hf & Hh)]. split; [exact Hn|]. left.
    exists l, f. split; [apply change_gentle, Hf | exact Hh]. }
  destruct ev as [env|t|key now cookies|key closed|sid|browser sid];
    cbn [step]; intros Hstep.
  - injection Hstep as <-. unfold createLoginSession.
    destruct (opened env) as [[p d]|e0];
      [|apply Hsame; [reflexivity|simpl; lia]].
    destruct (viewport env) as [[]|e1];
      [|apply Hsame; [reflexivity|simpl; lia]].
    destruct (qrShown env) as [[]|e2].
    2:{ destruct (closed env); apply Hsame; try reflexivity; simpl; lia. }
    cbn. split; [lia|]. right. exists env, p, d. eexists _, _.
    split; [reflexivity|]. split; [lia|].
    rewrite !alter_insert_eq. reflexivity.
  - unfold fire in Hstep. destruct (timers w !! t) as [[sid|sid|l]|]; [| | |discriminate];
      injection Hstep as <-.
    + unfold monitorBegin. destruct (getSession sid w) as [[l s]|]; [|apply Hsame; [reflexivity|lia]].
      destruct (status s), (page s); apply Hsame; try reflexivity; simpl; lia.
    + unfold markSessionExpired, getSession.
      cbn [loginSessions disarm set_timers heap].
      destruct (loginSessions w !! sid) as [l|]; [|apply Hsame; [reflexivity|simpl; lia]].
      destruct (heap w !! l) as [s|] eqn:Hs; [|apply Hsame; [reflexivity|simpl; lia]].
      destruct (status s) eqn:Hst.
      * edestruct (gently_after l (set_status expired) w
                     (assign l (set_status expired) (disarm t w)))
          as [Hn (f & Hf & Hh)];
          [reflexivity | simpl; lia | apply cleanupBegin_gently |].
        split; [exact Hn|]. left. eexists l, _.
        split; [eapply change_expired; eauto | exact Hh].
      * refine (Hgently l _ _). eapply gently_trans; [|apply cleanupBegin_gently].
        apply gently_same_heap; simpl; [reflexivity|lia].
      * refine (Hgently l _ _). eapply gently_trans; [|apply cleanupBegin_gently].
        apply gently_same_heap; simpl; [reflexivity|lia].
      * refine (Hgently l _ _). eapply gently_trans; [|apply cleanupBegin_gently].
        apply gently_same_heap; simpl; [reflexivity|lia].
    + unfold removeSession. cbn [heap disarm set_timers].
      destruct (heap w !! l); apply Hsame; try reflexivity; simpl; lia.
  - destruct (suspended w !! key) as [[l|l]|] eqn:Hkey; try discriminate.
    injection Hstep as <-. unfold monitorResume.
    destruct cookies as [cookies|e].
    + destruct (existsb _ cookies); [|apply Hsame; [reflexivity|simpl; lia]].
      match goal with
      | |- context [cleanupBegin l ?w1] =>
          destruct (gently_after l
                      (set_status success ∘ set_cookie (Some
                         (join (lit "; ")
                            (map (fun c => name c ++ lit "=" ++ value c)
                                 cookies))))
                      w w1 (fst (cleanupBegin l w1)))
            as [Hn (f & Hf & Hh)];
            [cbn; apply alter_alter_eq | simpl; lia
            | apply cleanupBegin_gently |]
      end.
      split; [exact Hn|]. left. eexists l, _.
      split; [eapply change_success; eauto | exact Hh].
    + match goal with
      | |- context [cleanupBegin l ?w1] =>
          destruct (gently_after l
                      (set_error (Some (errorMessage e)) ∘ set_status failed)
                      w w1 (fst (cleanupBegin l w1)))
            as [Hn (f & Hf & Hh)];
            [cbn; apply alter_alter_eq | simpl; lia
            | apply cleanupBegin_gently |]
      end.
      split; [exact Hn|]. left. eexists l, _.
      split; [eapply change_failed; eauto | exact Hh].
  - destruct (suspended w !! key) as [[l|l]|] eqn:Hkey; try discriminate.
    injection Hstep as <-.
    refine (Hgently l _ _). eapply gently_trans; [|apply cleanupResume_gently].
    apply gently_same_heap; simpl; [reflexivity|lia].
  - injection Hstep as <-. apply Hsame; [reflexivity|lia].
  - injection Hstep as <-. apply Hsame; [reflexivity|lia].
Qed.

Lemma Change_keeps (Q : LoginSession -> Prop) w ev l g s :
  (forall f s, gentle f -> Q s -> Q (f s)) ->
  (forall v s, Q s -> Q (set_status v s)) ->
  (forall v s, Q s -> Q (set_cookie v s)) ->
  (forall v s, Q s -> Q (set_error v s)) ->
  Change w ev l g -> Q s -> Q (g s).
Proof.
  intros Hg Hst Hck Her Hchange HQ.
  destruct Hchange; unfold compose; auto.
Qed.

(** X16. In every reachable world, races included, a session has a page
    exactly when it has a teardown function. *)
Lemma reachable_paired w :
  Reachable w -> forall l s, heap w !! l = Some s -> paired s.
Proof.
  induction 1 as [|w ev w' _ IH Hstep]; intros l s Hs.
  - cbn in Hs. rewrite lookup_empty in Hs. discriminate.
  - apply step_change in Hstep
      as [_ [(l0 & g & Hchange & Hh)|(env & p & d & tm & te & _ & _ & Hh)]];
      rewrite Hh in Hs.
    + rewrite lookup_alter in Hs. destruct (decide (l0 = l)) as [->|]; [|eauto].
      destruct (heap w !! l) as [s0|] eqn:Hs0; [|discriminate].
      injection Hs as <-.
      refine (Change_keeps paired w ev l g s0 _ _ _ _ Hchange (IH _ _ Hs0)).
      * intros f s Hf. apply Hf.
      * intros v []; exact (fun H => H).
      * intros v []; exact (fun H => H).
      * intros v []; exact (fun H => H).
    + rewrite lookup_insert in Hs. destruct (decide (next w = l)); [|eauto].
      injection Hs as <-. split; discriminate.
Qed.

Lemma reachable_fresh w :
  Reachable w -> forall l s, heap w !! l = Some s -> (l < next w)%nat.
Proof.
  induction 1 as [|w ev w' _ IH Hstep]; intros l s Hs.
  - cbn in Hs. rewrite lookup_empty in Hs. discriminate.
  - apply step_change in Hstep
      as [Hn [(l0 & g & _ & Hh)|(env & p & d & tm & te & _ & Hlt & Hh)]];
      rewrite Hh in Hs.
    + rewrite lookup_alter in Hs. destruct (decide (l0 = l)) as [->|].
      * destruct (heap w !! l) as [s0|] eqn:Hs0; [|discriminate].
        specialize (IH _ _ Hs0). lia.
      * specialize (IH _ _ Hs). lia.
    + rewrite lookup_insert in Hs. destruct (decide (next w = l)); [lia|].
      specialize (IH _ _ Hs). lia.
Qed.

Lemma timely_reachable w : ReachableTimely w -> Reachable w.
Proof. induction 1; [constructor | econstructor; eauto]. Qed.

Lemma payloadRule_pending s :
  payloadRule s -> status s = pending -> cookie s = None /\ error s = None.
Proof.
  intros [Hc He] Hst. rewrite Hst in Hc, He.
  destruct (cookie s), (error s); split; try reflexivity; exfalso.
  all: try (assert (pending = success) by (apply Hc; eauto); discriminate).
  all: assert (pending = failed) by (apply He; eauto); discriminate.
Qed.

(** X11. When every cookie read settles while its session is still
    [pending], every session object obeys the payload rule: [cookie] is
    there exactly in [success] and [error] exactly in [failed]. *)
Lemma timely_payload_rule w :
  ReachableTimely w -> forall l s, heap w !! l = Some s -> payloadRule s.
Proof.
  induction 1 as [|w ev w' _ IH Htimely Hstep]; intros l s Hs.
  - cbn in Hs. rewrite lookup_empty in Hs. discriminate.
  - apply step_change in Hstep
      as [_ [(l0 & g & Hchange & Hh)|(env & p & d & tm & te & _ & _ & Hh)]];
      rewrite Hh in Hs.
    + rewrite lookup_alter in Hs. destruct (decide (l0 = l)) as [->|]; [|eauto].
      destruct (heap w !! l) as [s0|] eqn:Hs0; [|discriminate].
      injection Hs as <-. specialize (IH _ _ Hs0).
      assert (Hgentle : forall f s, gentle f -> payloadRule s -> payloadRule (f s)).
      { intros f s Hf. destruct (Hf s) as (_ & Hst & _ & Hck & Her & _).
        unfold payloadRule. rewrite Hst, Hck, Her. exact (fun H => H). }
      destruct Hchange as [f Hf|f s1 Hf Hs1 Hpend|f key now cookies text Hf -> Hkey
                          |f key now e Hf -> Hkey]; unfold compose.
      * auto.
      * apply Hgentle; [exact Hf|].
        destruct (payloadRule_pending _ IH) as [Hc He]; [congruence|].
        destruct s0; cbn in *. subst. split; split; intros H;
          try discriminate; destruct H; discriminate.
      * apply Hgentle; [exact Hf|].
        destruct (Htimely _ Hkey) as (s1 & Hs1 & Hpend).
        destruct (payloadRule_pending _ IH) as [Hc He]; [congruence|].
        destruct s0; cbn in *. subst. split; split; intros H;
          try discriminate; eauto; destruct H; discriminate.
      * apply Hgentle; [exact Hf|].
        destruct (Htimely _ Hkey) as (s1 & Hs1 & Hpend).
        destruct (payloadRule_pending _ IH) as [Hc He]; [congruence|].
        destruct s0; cbn in *. subst. split; split; intros H;
          try discriminate; eauto; destruct H; discriminate.
    + rewrite lookup_insert in Hs. destruct (decide (next w = l)); [|eauto].
      injection Hs as <-. split; split; cbn; intros H;
        try discriminate; destruct H; discriminate.
Qed.

(** X12. In a reachable world, a step whose cookie read, if it is one,
    settles while its session is still [pending] leaves every terminal
    status as it is: a later tick, the expiry, a removal, a creation, a
    poll or a QR request never change it. *)
Lemma timely_terminal_sticky w ev w' l s :
  Reachable w -> timely w ev -> step w ev = Some w' ->
  heap w !! l = Some s -> terminal (status s) = true ->
  exists s', heap w' !! l = Some s' /\ status s' = status s.
Proof.
  intros Hreach Htimely Hstep Hs Hterm.
  apply step_change in Hstep
    as [_ [(l0 & g & Hchange & Hh)|(env & p & d & tm & te & _ & _ & Hh)]];
    rewrite Hh.
  - rewrite lookup_alter. destruct (decide (l0 = l)) as [->|]; [|eauto].
    rewrite Hs. cbn. eexists. split; [reflexivity|].
    destruct Hchange as [f Hf|f s1 Hf Hs1 Hpend|f key now cookies text Hf -> Hkey
                        |f key now e Hf -> Hkey]; unfold compose.
    + apply Hf.
    + rewrite Hs in Hs1. injection Hs1 as <-. rewrite Hpend in Hterm. discriminate.
    + destruct (Htimely _ Hkey) as (s1 & Hs1 & Hpend).
      rewrite Hs in Hs1. injection Hs1 as <-. rewrite Hpend in Hterm. discriminate.
    + destruct (Htimely _ Hkey) as (s1 & Hs1 & Hpend).
      rewrite Hs in Hs1. injection Hs1 as <-. rewrite Hpend in Hterm. discriminate.
  - pose proof (reachable_fresh w Hreach l s Hs).
    rewrite lookup_insert_ne by lia. eauto.
Qed.

(** *** The scenarios of the route *)

Example login_succeeds :
  exists w,
    run initial [Create Sample.creation; Fires 1%nat;
                 CookiesSettle 3%nat 4000
                   (Resolved [mkCookie (lit "a1") (lit "x");
                              mkCookie (lit "web_session") (lit "abc")]);
                 DestorySettles 4%nat (Resolved tt)] = Some w
    /\ serveStatus (lit "s1") w
       = Json 200 (StatusBody (lit "s1") success
                     (Some (lit "a1=x; web_session=abc")) None 301000)
    /\ Cookie.getCookieValue None (runtime w)
       = Some (lit "a1=x; web_session=abc")
    /\ destroyed w = [7%nat]
    /\ timers w = {[5%nat := RemovalTick 0%nat]}.
Proof.
  eexists. split; [vm_compute; reflexivity|].
  repeat split; vm_compute; reflexivity.
Qed.

Example login_expires_then_is_removed :
  exists w w',
    run initial [Create Sample.creation; Fires 1%nat;
                 CookiesSettle 3%nat 4000 (Resolved []);
                 Fires 2%nat; DestorySettles 4%nat (Resolved tt)] = Some w
    /\ serveStatus (lit "s1") w
       = Json 200 (StatusBody (lit "s1") expired None None 301000)
    /\ serveQRCode (fun _ => Sample.fallbackView) (lit "s1") w
       = Json 404 (ErrorBody (lit "session_inactive") None)
    /\ step w (Fires 5%nat) = Some w'
    /\ serveStatus (lit "s1") w' = Json 404 MissingBody.
Proof.
  eexists _, _. split; [vm_compute; reflexivity|].
  split; [vm_compute; reflexivity|].
  split; [vm_compute; reflexivity|].
  split; vm_compute; reflexivity.
Qed.

Example read_failure_marks_failed :
  exists w,
    run initial [Create Sample.creation; Fires 1%nat;
                 CookiesSettle 3%nat 4000 (Rejected Sample.targetClosed)]
    = Some w
    /\ serveStatus (lit "s1") w
       = Json 200 (StatusBody (lit "s1") failed None
                     (Some (lit "Target closed")) 301000).
Proof. eexists. split; vm_compute; reflexivity. Qed.

Example unknown_action :
  snd (handler Sample.creation (fun _ => Sample.fallbackView)
         (mkRequest (Some (lit "s1")) (Some (lit "logout"))) Sample.created)
  = Resolved (Json 404 (ErrorBody (lit "unsupported_action") None)).
Proof. vm_compute. reflexivity. Qed.

(** C1. The payload rule ([cookie] exactly in [success], [error] exactly
    in [failed]) is broken by the code when two monitor ticks overlap:
    [monitorSession] checks the status before [await
    session.page.cookies()] and not after it. In the run
    [Sample.overlappingTicks] both ticks pass the check; the first reads
    the login cookie and marks the session [success]; the read of the
    second is rejected once the page is closed, and its [catch] clause
    marks the same session [failed]. The session in the table is then
    [failed] and still carries the cookie. *)
Theorem overlapping_ticks_break_payload_rule :
  exists (w : World) (l : Loc) (s : LoginSession),
    run initial Sample.overlappingTicks = Some w
    /\ getSession (lit "s1") w = Some (l, s)
    /\ status s = failed
    /\ cookie s = Some (lit "web_session=abc")
    /\ error s = Some (lit "Target closed")
    /\ ~ payloadRule s.
Proof.
  eexists _, _, _.
  split; [vm_compute; reflexivity|].
  split; [vm_compute; reflexivity|].
  repeat split; try reflexivity.
  intros [Hcookie _]. cbn in Hcookie.
  assert (H : failed = success) by (apply Hcookie; eauto).
  discriminate.
Qed.

(** C2. A terminal status is not final in the code when a monitor tick is
    under way at the time the session expires. In the run
    [Sample.expiryDuringTick] the tick has passed the status check and
    awaits the cookies when the expiry timer marks the session [expired]
    and closes the page. When the read then settles, the rest of
    [monitorSession] runs without a second check: a rejected read turns the
    [expired] session into [failed], and a read that shows the login cookie
    turns it into [success]. *)
Theorem expired_session_changes_status :
  exists (w : World) (l : Loc) (s : LoginSession),
    run initial Sample.expiryDuringTick = Some w
    /\ getSession (lit "s1") w = Some (l, s)
    /\ status s = expired
    /\ (exists w1 s1,
          step w (CookiesSettle 3%nat 300001 (Rejected Sample.targetClosed))
          = Some w1
          /\ getSession (lit "s1") w1 = Some (l, s1)
          /\ status s1 = failed)
    /\ (exists w2 s2,
          step w (CookiesSettle 3%nat 300001 (Resolved Sample.loggedIn))
          = Some w2
          /\ getSession (lit "s1") w2 = Some (l, s2)
          /\ status s2 = success).
Proof.
  eexists _, _, _.
  split; [vm_compute; reflexivity|].
  split; [vm_compute; reflexivity|].
  split; [reflexivity|].
  split; eexists _, _;
    (split; [vm_compute; reflexivity|]);
    (split; [vm_compute; reflexivity|]); reflexivity.
Qed.

(** ** The collect pipeline *)

Import Pipeline.














Lemma getUserCollect_page_not_opened (addr : N) (run : Pipeline.Run)
    (e : Thrown) :
  strictEquals (Collect.hasMoreCollectFlag (Pipeline.httpCollect run))
               (JsBool false) = false ->
  Pipeline.openPage run = Rejected e ->
  Pipeline.getUserCollect addr run = Rejected e.
Proof.
  intros Hmore Hopen. unfold Pipeline.getUserCollect.
  rewrite Hmore, andb_false_r, Hopen. reflexivity.
Qed.

(** C4. The pipeline raises although a strategy has yielded notes. In the
    run [Sample.browserFails] the HTTP fetch yields one note without a
    [has_more] flag, so the browser is asked for more, and
    [getPuppeteerPage] is rejected: the call sits before the [try] block
    whose [catch] clause returns partial results, and the rejection reaches
    the caller. The same holds for every run whose HTTP result does not
    carry [has_more: false]. *)
Theorem getUserCollect_raises_with_http_notes :
  forall addr : N,
    Collect.selectCollectNotes (Pipeline.httpCollect Sample.browserFails)
    = [JsObject 4 [(lit "note_id", JsStr (lit "a"))]]
    /\ Pipeline.getUserCollect addr Sample.browserFails
       = Rejected Sample.browserDown.
Proof.
  intros addr. split; [vm_compute; reflexivity|].
  apply getUserCollect_page_not_opened; reflexivity.
Qed.

(** ** The text helpers *)

Import Text.

Lemma trimStart_suffix (s : JsString) :
  exists blank, s = blank ++ trimStart s /\ forallb isWhiteSpace blank = true.
Proof.
  induction s as [|c s (blank & IH & Hb)]; [exists []; auto|].
  simpl. destruct (isWhiteSpace c) eqn:Hc.
  - exists (c :: blank). simpl. rewrite Hc, Hb. split; [congruence|reflexivity].
  - exists []. auto.
Qed.

Lemma trimStart_fixed (s : JsString) :
  match s with [] => True | c :: _ => isWhiteSpace c = false end ->
  trimStart s = s.
Proof. destruct s as [|c s]; simpl; [reflexivity|]. intros ->. reflexivity. Qed.

Lemma trimStart_idempotent (s : JsString) : trimStart (trimStart s) = trimStart s.
Proof.
  apply trimStart_fixed. destruct (trimStart s) eqn:E; [exact I|].
  eapply trimStart_head, E.
Qed.

Lemma trimEnd_prefix (s : JsString) :
  exists blank, s = trimEnd s ++ blank.
Proof.
  unfold trimEnd. destruct (trimStart_suffix (rev s)) as (blank & H & _).
  exists (rev blank). rewrite <- rev_app_distr, <- H, rev_involutive.
  reflexivity.
Qed.

Lemma trimEnd_idempotent (s : JsString) : trimEnd (trimEnd s) = trimEnd s.
Proof.
  unfold trimEnd. rewrite rev_involutive, trimStart_idempotent. reflexivity.
Qed.

Lemma trimStart_trimEnd (s : JsString) :
  trimStart (trimEnd (trimStart s)) = trimEnd (trimStart s).
Proof.
  apply trimStart_fixed.
  destruct (trimEnd_prefix (trimStart s)) as (blank & H).
  destruct (trimEnd (trimStart s)) as [|c rest] eqn:E; [exact I|].
  simpl in H. eapply trimStart_head, H.
Qed.

Lemma trim_idempotent (s : JsString) : trim (trim s) = trim s.
Proof.
  unfold trim. rewrite trimStart_trimEnd. apply trimEnd_idempotent.
Qed.

(** A string without white space. *)
Lemma trim_no_white_space (s : JsString) :
  forallb (fun c => negb (isWhiteSpace c)) s = true -> trim s = s.
Proof.
  intros H.
  assert (Hstart : forall t, forallb (fun c => negb (isWhiteSpace c)) t = true ->
                             trimStart t = t).
  { intros t Ht. apply trimStart_fixed. destruct t as [|c t]; [exact I|].
    simpl in Ht. apply andb_true_iff in Ht as [Hc _].
    destruct (isWhiteSpace c); [discriminate|reflexivity]. }
  unfold trim, trimEnd. rewrite (Hstart s H), Hstart, rev_involutive;
    [reflexivity|].
  rewrite forallb_forall in *. intros c Hc. apply H, in_rev, Hc.
Qed.



Lemma replaceAllChar_keeps_out (c d : N) (replacement s : JsString) :
  ~ In d replacement -> ~ In d s -> ~ In d (replaceAllChar c replacement s).
Proof.
  intros Hr Hs H. unfold replaceAllChar in H.
  apply in_flat_map in H as (x & Hx & H).
  destruct (N.eqb x c); [auto|]. destruct H as [<-|[]]. auto.
Qed.








Example formatText_sample :
  formatText ([97; 13; 10; 98; 13; 99; 10; 9; 100]%N)
  = lit "a<br>b<br>c<br>&emsp;d".
Proof. reflexivity. Qed.

Lemma startsWith_take (needle s : JsString) (n : nat) :
  Pipeline.startsWith needle (take n s) = true ->
  Pipeline.startsWith needle s = true.
Proof.
  revert s n. induction needle as [|a needle IH]; intros s n; [reflexivity|].
  destruct s as [|b s], n as [|n]; simpl; try discriminate.
  intros H. apply andb_true_iff in H as [Hab H].
  rewrite Hab. simpl. eapply IH, H.
Qed.

Lemma indexOf_none (needle s : JsString) :
  indexOf needle s = None -> Pipeline.includes needle s = false.
Proof.
  induction s as [|c s IH]; simpl.
  - destruct (Pipeline.startsWith needle []); [discriminate|reflexivity].
  - destruct (Pipeline.startsWith needle (c :: s)); [discriminate|].
    destruct (indexOf needle s); [discriminate|]. intros _. apply IH. reflexivity.
Qed.

Lemma sliceTo_indexOf (needle s : JsString) :
  needle <> [] ->
  Pipeline.includes needle (sliceTo (indexOf needle s) s) = false.
Proof.
  intros Hne.
  destruct (indexOf needle s) as [i|] eqn:Hi; [|apply indexOf_none, Hi].
  simpl. revert i Hi. induction s as [|c s IH]; intros i Hi.
  - destruct needle; [congruence|]. simpl in Hi. discriminate.
  - simpl in Hi. destruct (Pipeline.startsWith needle (c :: s)) eqn:Hs.
    + injection Hi as <-. simpl. destruct needle; [congruence|reflexivity].
    + destruct (indexOf needle s) as [j|]; [|discriminate].
      injection Hi as <-. cbn [take Pipeline.includes].
      rewrite (IH j eq_refl), orb_false_r.
      destruct (Pipeline.startsWith needle (c :: take j s)) eqn:Ht;
        [|reflexivity].
      apply (startsWith_take needle (c :: s) (S j)) in Ht. congruence.
Qed.

Lemma sliceTo_searchWhiteSpace (s : JsString) :
  forallb (fun c => negb (isWhiteSpace c))
          (sliceTo (searchWhiteSpace s) s) = true.
Proof.
  induction s as [|c s IH]; [reflexivity|]. simpl.
  destruct (isWhiteSpace c) eqn:Hc; [reflexivity|].
  destruct (searchWhiteSpace s) as [i|]; simpl in *; rewrite Hc, IH; reflexivity.
Qed.

Lemma sliceTo_prefix (index : option nat) (s : JsString) :
  exists rest, s = sliceTo index s ++ rest.
Proof.
  destruct index as [i|]; simpl.
  - exists (drop i s). symmetry. apply take_drop.
  - exists []. symmetry. apply app_nil_r.
Qed.

Lemma sliceTo_no_white_space (index : option nat) (s : JsString) :
  forallb (fun c => negb (isWhiteSpace c)) s = true ->
  forallb (fun c => negb (isWhiteSpace c)) (sliceTo index s) = true.
Proof.
  intros H. destruct (sliceTo_prefix index s) as (rest & Hs).
  rewrite Hs, forallb_app in H. apply andb_true_iff in H. tauto.
Qed.

Lemma searchWhiteSpace_none (s : JsString) :
  forallb (fun c => negb (isWhiteSpace c)) s = true ->
  searchWhiteSpace s = None.
Proof.
  induction s as [|c s IH]; [reflexivity|]. simpl. intros H.
  apply andb_true_iff in H as [Hc H]. destruct (isWhiteSpace c); [discriminate|].
  rewrite IH by exact H. reflexivity.
Qed.

Lemma indexOf_absent (needle s : JsString) :
  Pipeline.includes needle s = false -> indexOf needle s = None.
Proof.
  induction s as [|c s IH]; simpl; intros H;
    apply orb_false_iff in H as [Hs H]; rewrite Hs; [reflexivity|].
  rewrite IH by exact H. reflexivity.
Qed.

(** A URL without white space and without the marker is kept as it is. *)
Lemma sanitizeImageUrl_unchanged (u : JsString) :
  forallb (fun c => negb (isWhiteSpace c)) u = true ->
  Pipeline.includes imageViewMarker u = false ->
  sanitizeImageUrl (Some u) = u.
Proof.
  intros Hws Hmark. unfold sanitizeImageUrl.
  destruct u as [|c u]; [reflexivity|].
  rewrite (trim_no_white_space _ Hws), (searchWhiteSpace_none _ Hws).
  cbn [sliceTo]. rewrite (indexOf_absent _ _ Hmark). reflexivity.
Qed.

(** X5. For every argument the result of [sanitizeImageUrl] holds no white
    space and no [?imageView2] marker, it starts the trimmed argument, and
    sanitizing it again changes nothing. *)
Theorem sanitizeImageUrl_clean :
  forall url : option JsString,
    let result := sanitizeImageUrl url in
    forallb (fun c => negb (isWhiteSpace c)) result = true
    /\ Pipeline.includes imageViewMarker result = false
    /\ (exists rest, from_option trim [] url = result ++ rest)
    /\ sanitizeImageUrl (Some result) = result.
Proof.
  intros url result.
  assert (H : forallb (fun c => negb (isWhiteSpace c)) result = true
              /\ Pipeline.includes imageViewMarker result = false
              /\ exists rest, from_option trim [] url = result ++ rest).
  { subst result. unfold sanitizeImageUrl.
    destruct url as [[|c u]|]; [repeat split; eexists; reflexivity| |
                                repeat split; eexists; reflexivity].
    change (from_option trim [] (Some (c :: u))) with (trim (c :: u)).
    destruct (trim (c :: u)) as [|d t];
      [repeat split; eexists; reflexivity|].
    set (cut := sliceTo (searchWhiteSpace (d :: t)) (d :: t)).
    split; [apply sliceTo_no_white_space, sliceTo_searchWhiteSpace|].
    split; [apply sliceTo_indexOf; discriminate|].
    destruct (sliceTo_prefix (indexOf imageViewMarker cut) cut) as (r1 & H1).
    destruct (sliceTo_prefix (searchWhiteSpace (d :: t)) (d :: t)) as (r2 & H2).
    fold cut in H2. exists (r1 ++ r2). rewrite app_assoc, <- H1. exact H2. }
  destruct H as (Hws & Hmark & Hpre).
  repeat split; try assumption.
  apply sanitizeImageUrl_unchanged; assumption.
Qed.

Example sanitizeImageUrl_sample :
  sanitizeImageUrl (Some (lit "  http://x/a.jpg?imageView2/2/w/1080 1080w "))
  = lit "http://x/a.jpg".
Proof. reflexivity. Qed.

(** ** The runtime cookie over sequences of calls *)

Import CookieCalls.

Lemma call_tidy (st : Cookie.State) (c : Call) : tidy (call st c).
Proof.
  destruct c as [now [s|]|]; try reflexivity.
  unfold tidy, call, Cookie.setRuntimeCookie, Cookie.normalizeCookie.
  destruct s as [|a s]; [reflexivity|].
  destruct (trim (a :: s)) as [|b t] eqn:Ht; [reflexivity|].
  cbn [Cookie.runtimeCookie Cookie.runtimeUpdatedAt].
  split; [discriminate|]. split; [|eauto].
  rewrite <- Ht. apply trim_idempotent.
Qed.

Lemma fold_call_tidy (calls : list Call) :
  forall st, tidy st -> tidy (fold_left call calls st).
Proof.
  induction calls as [|c calls IH]; intros st Hst; [exact Hst|].
  simpl. apply IH, call_tidy.
Qed.

(** X1. Whatever calls of [setRuntimeCookie] and [clearRuntimeCookie] have
    been made, the slot is tidy: a stored cookie is never empty and never
    has white space around it, and [runtimeUpdatedAt] is set exactly when
    a cookie is stored. *)
Theorem runtime_slot_tidy :
  forall calls : list Call,
    tidy (after calls)
    /\ (is_Some (Cookie.runtimeUpdatedAt (after calls))
        <-> is_Some (Cookie.runtimeCookie (after calls))).
Proof.
  intros calls.
  assert (H : tidy (after calls)) by (apply fold_call_tidy; reflexivity).
  split; [exact H|]. unfold tidy in H.
  destruct (Cookie.runtimeCookie (after calls)) as [c|].
  - destruct H as (_ & _ & Hu). split; eauto.
  - rewrite H. split; intros [x Hx]; discriminate.
Qed.

(** X2. [getCookieMeta] names the origin of the active cookie. After any
    calls: the source is [runtime] exactly when a runtime cookie is stored,
    and the cookie reported is then that one; the source is [config] when
    there is none and the configured cookie is a non-empty string, which
    is then reported; and the source is [none] exactly when the cookie
    reported is [undefined] or the empty string. *)
Theorem getCookieMeta_source :
  forall (cfg : option JsString) (calls : list Call),
    let st := after calls in
    let cookie := fst (fst (Cookie.getCookieMeta cfg st)) in
    let source := snd (fst (Cookie.getCookieMeta cfg st)) in
    cookie = Cookie.getCookieValue cfg st
    /\ match source with
       | Cookie.SrcRuntime =>
           is_Some (Cookie.runtimeCookie st)
           /\ cookie = Cookie.runtimeCookie st
       | Cookie.SrcConfig =>
           Cookie.runtimeCookie st = None /\ cookie = cfg
           /\ cfg <> None /\ cfg <> Some []
       | Cookie.SrcNone =>
           Cookie.runtimeCookie st = None
           /\ (cookie = None \/ cookie = Some [])
       end.
Proof.
  intros cfg calls st cookie source.
  assert (Htidy : tidy st) by (apply fold_call_tidy; reflexivity).
  subst cookie source.
  unfold Cookie.getCookieMeta, Cookie.getCookieValue, tidy in *.
  cbn [fst snd]. split; [reflexivity|].
  destruct (Cookie.runtimeCookie st) as [[|a c]|].
  - destruct Htidy as [H _]. congruence.
  - split; [eauto | reflexivity].
  - destruct cfg as [[|a c]|]; repeat split; auto; discriminate.
Qed.

(** ** How merges compose *)

Import MergeOrder.

Lemma kept_app (notes more : list JsValue) : forall seen,
  Collect.kept seen (notes ++ more)
  = Collect.kept seen notes ++ Collect.kept (seenAfter seen notes) more.
Proof.
  induction notes as [|note rest IH]; intros seen; [reflexivity|].
  simpl. destruct (truthy note); simpl; [|apply IH].
  destruct (truthy (Collect.noteIdOf note)
            && setHas seen (Collect.noteIdOf note)); [apply IH|].
  simpl. f_equal. apply IH.
Qed.

Lemma kept_truthy (notes : list JsValue) : forall seen,
  Forall (fun note => truthy note = true) (Collect.kept seen notes).
Proof.
  induction notes as [|note rest IH]; intros seen; simpl; [constructor|].
  destruct (truthy note) eqn:Hn; simpl; [|apply IH].
  destruct (truthy (Collect.noteIdOf note)
            && setHas seen (Collect.noteIdOf note)); [apply IH|].
  constructor; [exact Hn | apply IH].
Qed.

(** Running the loop over what an earlier run has kept, with at least the
    ids that run had seen, is running it over the notes themselves. *)
Lemma kept_of_kept (notes : list JsValue) : forall before seen,
  (forall k, setHas before k = true -> setHas seen k = true) ->
  Collect.kept seen (Collect.kept before notes) = Collect.kept seen notes
  /\ seenAfter seen (Collect.kept before notes) = seenAfter seen notes.
Proof.
  induction notes as [|note rest IH]; intros before seen Hsub; [auto|].
  simpl. destruct (truthy note) eqn:Hn; simpl; [|apply IH, Hsub].
  set (k := Collect.noteIdOf note).
  destruct (truthy k) eqn:Hk; simpl.
  - destruct (setHas before k) eqn:Hb; simpl.
    + rewrite (Hsub k Hb). apply IH, Hsub.
    + rewrite Hn. simpl. fold k. rewrite Hk. simpl.
      destruct (setHas seen k) eqn:Hs.
      * apply IH. intros j. rewrite setHas_add. intros Hj.
        apply orb_true_iff in Hj as [Hj|Hj]; [apply Hsub, Hj|].
        rewrite <- (setHas_same seen k j Hj). exact Hs.
      * destruct (IH (setAdd before k) (setAdd seen k)) as [H1 H2].
        { intros j. rewrite !setHas_add. intros Hj.
          apply orb_true_iff in Hj as [Hj|Hj];
            [rewrite (Hsub j Hj) | rewrite Hj, orb_true_r]; reflexivity. }
        rewrite H1, H2. auto.
  - rewrite Hn. simpl. fold k. rewrite Hk. simpl.
    destruct (IH before seen Hsub) as [H1 H2]. rewrite H1, H2. auto.
Qed.

Lemma filterBoolean_truthy_id (notes : list JsValue) :
  Forall (fun note => truthy note = true) notes ->
  Collect.filterBoolean notes = notes.
Proof.
  induction 1 as [|note rest Hn _ IH]; [reflexivity|].
  unfold Collect.filterBoolean in *. simpl. rewrite Hn, IH. reflexivity.
Qed.

(** What the next merge reads from the result of a merge. *)
Lemma selectCollectNotes_merge (addr : N) (sources : list JsValue) :
  Collect.selectCollectNotes (Collect.mergeCollectSources addr sources)
  = Collect.kept [] (Collect.contributed sources).
Proof.
  rewrite mergeCollectSources_kept.
  pose proof (kept_truthy (Collect.contributed sources) []) as Ht.
  destruct (Collect.kept [] (Collect.contributed sources)) as [|n rest];
    [reflexivity|].
  cbn. apply filterBoolean_truthy_id, Ht.
Qed.

Lemma mergedNotes_merge (addr : N) (sources : list JsValue) :
  Collect.mergedNotes (Collect.mergeCollectSources addr sources)
  = Collect.kept [] (Collect.contributed sources).
Proof.
  rewrite mergeCollectSources_kept.
  destruct (Collect.kept [] (Collect.contributed sources)); reflexivity.
Qed.

Lemma contributed_app (s1 s2 : list JsValue) :
  Collect.contributed (s1 ++ s2)
  = Collect.contributed s1 ++ Collect.contributed s2.
Proof. unfold Collect.contributed. rewrite map_app. apply concat_app. Qed.

Lemma kept_middle (before middle rest : list JsValue) :
  Collect.kept [] (before ++ Collect.kept [] middle ++ rest)
  = Collect.kept [] (before ++ middle ++ rest).
Proof.
  rewrite !kept_app.
  destruct (kept_of_kept middle [] (seenAfter [] before)) as [H1 H2];
    [discriminate|].
  rewrite H1, H2. reflexivity.
Qed.

(** X6. Merges compose: putting the result of an earlier merge among the
    sources of a merge, at any place, gives the notes that merging all the
    sources at once gives. In particular merging a result with nothing
    else returns its notes unchanged. *)
Theorem mergeCollectSources_incremental :
  forall (a b c : N) (before inner after : list JsValue),
    Collect.mergedNotes
      (Collect.mergeCollectSources b
         (before ++ Collect.mergeCollectSources a inner :: after))
    = Collect.mergedNotes
        (Collect.mergeCollectSources c (before ++ inner ++ after))
    /\ Collect.mergedNotes
         (Collect.mergeCollectSources b [Collect.mergeCollectSources a inner])
       = Collect.mergedNotes (Collect.mergeCollectSources a inner).
Proof.
  intros a b c before inner after.
  assert (H : forall s1 s3,
            Collect.kept [] (Collect.contributed
               (s1 ++ Collect.mergeCollectSources a inner :: s3))
            = Collect.kept [] (Collect.contributed (s1 ++ inner ++ s3))).
  { intros s1 s3.
    rewrite !contributed_app.
    change (Collect.contributed (Collect.mergeCollectSources a inner :: s3))
      with (Collect.selectCollectNotes (Collect.mergeCollectSources a inner)
            ++ Collect.contributed s3).
    rewrite selectCollectNotes_merge. apply kept_middle. }
  split.
  - rewrite !mergedNotes_merge. apply H.
  - rewrite !mergedNotes_merge. specialize (H [] []). simpl in H.
    rewrite app_nil_r in H. exact H.
Qed.

(** ** The collect pipeline, end to end *)

Lemma jsNullish_merge_notes (addr : N) (result source : JsValue) :
  Collect.selectCollectNotes
    (jsNullish (Collect.mergeCollectSources addr [result; source]) result)
  = Collect.kept [] (Collect.selectCollectNotes result
                     ++ Collect.selectCollectNotes source).
Proof.
  pose proof (selectCollectNotes_merge addr [result; source]) as H.
  unfold Collect.contributed in H. simpl in H. rewrite app_nil_r in H.
  rewrite mergeCollectSources_kept in *.
  unfold Collect.contributed in *. simpl in *. rewrite app_nil_r in *.
  destruct (Collect.kept [] (Collect.selectCollectNotes result
                             ++ Collect.selectCollectNotes source))
    as [|n rest] eqn:Hk; [|exact H].
  simpl. rewrite kept_app in Hk. apply app_eq_nil in Hk as [Hk _].
  apply kept_nil in Hk; [exact Hk | apply selectCollectNotes_truthy].
Qed.

Lemma jsNullish_merge_truthy (addr : N) (result source : JsValue) :
  truthy (jsNullish (Collect.mergeCollectSources addr [result; source]) result)
  = truthy result
    || negb (bool_decide
               (Collect.kept [] (Collect.selectCollectNotes result
                                 ++ Collect.selectCollectNotes source) = [])).
Proof.
  rewrite mergeCollectSources_kept.
  unfold Collect.contributed. simpl. rewrite app_nil_r.
  destruct (Collect.kept [] (Collect.selectCollectNotes result
                             ++ Collect.selectCollectNotes source));
    simpl; [rewrite orb_false_r | rewrite orb_true_r]; reflexivity.
Qed.



Import PipelineRuns.



(** X8. When the browser answers every call, the result of
    [getUserCollect] is the first-seen-wins merge of the four strategies in
    the order HTTP fetch, SSR state, API payloads, DOM: its notes are those
    of one merge of all these sources. It raises the [InvalidParameterError]
    for nothing found exactly when these sources contribute no note and
    the HTTP fetch gave nothing. *)
Theorem getUserCollect_merges_all :
  forall (addr : N) (run : Pipeline.Run) (ssr dom : JsValue),
    smooth run ssr dom -> needsBrowser run ->
    let http := Pipeline.httpCollect run in
    let notes :=
      Collect.mergedNotes
        (Collect.mergeCollectSources addr
           (http :: ssr :: Pipeline.collectPayloads run ++ [dom])) in
    if truthy http || negb (bool_decide (notes = []))
    then exists result,
           Pipeline.getUserCollect addr run = Resolved result
           /\ Collect.selectCollectNotes result = notes
    else Pipeline.getUserCollect addr run
         = Rejected (Pipeline.InvalidParameterError Pipeline.nothingMessage).
Proof.
  intros addr run ssr dom
    (Hopen & Hgoto & Hwait & Hcap & Hurl & Hssr & [locked Hlock] & Hscroll
     & Hdom & Hclose) Hneeds http notes.
  unfold needsBrowser in Hneeds. fold http in Hneeds.
  unfold Pipeline.getUserCollect. fold http. rewrite Hneeds, Hopen.
  unfold Pipeline.finallyBlock. rewrite Hclose.
  unfold Pipeline.tryBlock, Pipeline.bind, Pipeline.await, Pipeline.when,
    Pipeline.throw, Pipeline.ret, Pipeline.readResult, Pipeline.mergeInto,
    Pipeline.mergePayloads.
  rewrite Hgoto, Hwait, Hcap, Hurl, Hssr, Hscroll, Hdom, Hlock.
  cbn [Pipeline.collectResult Pipeline.nextAddr].
  set (cr1 := jsNullish (Collect.mergeCollectSources addr [http; ssr]) http).
  assert (Hskip : forall (A : Type) (x : A),
            (if negb (truthy cr1) then x else x) = x)
    by (intros; destruct (negb (truthy cr1)); reflexivity).
  rewrite Hskip. cbn [Pipeline.collectResult Pipeline.nextAddr].
  set (api := Collect.mergeCollectSources (addr + 3)
                (Pipeline.collectPayloads run)).
  set (cr2 := jsNullish (Collect.mergeCollectSources (addr + 3 + 3) [cr1; api])
                        cr1).
  set (cr3 := jsNullish
                (Collect.mergeCollectSources (addr + 3 + 3 + 3) [cr2; dom])
                cr2).
  assert (Hnotes : Collect.selectCollectNotes cr3 = notes).
  { subst cr3 cr2 cr1 api notes.
    rewrite !jsNullish_merge_notes, selectCollectNotes_merge, mergedNotes_merge.
    change (Collect.contributed
              (http :: ssr :: Pipeline.collectPayloads run ++ [dom]))
      with (Collect.selectCollectNotes http ++ Collect.selectCollectNotes ssr
            ++ Collect.contributed (Pipeline.collectPayloads run ++ [dom])).
    rewrite contributed_app.
    change (Collect.contributed [dom])
      with (Collect.selectCollectNotes dom ++ []).
    rewrite app_nil_r.
    set (H := Collect.selectCollectNotes http).
    set (S := Collect.selectCollectNotes ssr).
    set (P := Collect.contributed (Pipeline.collectPayloads run)).
    set (D := Collect.selectCollectNotes dom).
    pose proof (kept_middle [] (H ++ S) (Collect.kept [] P)) as E1.
    simpl in E1. rewrite E1.
    pose proof (kept_middle (H ++ S) P []) as E2.
    rewrite !app_nil_r in E2. rewrite E2.
    pose proof (kept_middle [] ((H ++ S) ++ P) D) as E3.
    simpl in E3. rewrite E3. rewrite <- !app_assoc. reflexivity. }
  assert (Htruthy : truthy cr3
                    = truthy http || negb (bool_decide (notes = []))).
  { rewrite <- Hnotes. subst cr3.
    rewrite jsNullish_merge_notes, jsNullish_merge_truthy.
    set (N3 := Collect.kept [] (Collect.selectCollectNotes cr2
                                ++ Collect.selectCollectNotes dom)).
    destruct (bool_decide (N3 = [])) eqn:E3;
      [|rewrite !orb_true_r; reflexivity].
    apply bool_decide_eq_true in E3. rewrite orb_false_r.
    subst N3. rewrite kept_app in E3. apply app_eq_nil in E3 as [E2 _].
    apply kept_nil in E2; [|apply selectCollectNotes_truthy].
    subst cr2. rewrite jsNullish_merge_truthy.
    rewrite jsNullish_merge_notes in E2. rewrite E2. simpl.
    rewrite !orb_false_r.
    rewrite kept_app in E2. apply app_eq_nil in E2 as [E1 _].
    apply kept_nil in E1; [|apply selectCollectNotes_truthy].
    subst cr1. rewrite jsNullish_merge_truthy.
    rewrite jsNullish_merge_notes in E1. rewrite E1. simpl.
    rewrite orb_false_r. reflexivity. }
  rewrite <- Htruthy.
  destruct (truthy cr3) eqn:Ht; simpl.
  - exists cr3. split; [reflexivity | exact Hnotes].
  - unfold Pipeline.catchBlock. cbn [Pipeline.collectResult].
    rewrite Ht. reflexivity.
Qed.

Lemma getUserCollect_merges_all_witness :
  smooth SampleRuns.smoothRun
    (JsArray 10 [SampleRuns.note 11 "note_id" "a";
                 SampleRuns.note 12 "note_id" "b"])
    (JsArray 30 [SampleRuns.note 31 "note_id" "c";
                 SampleRuns.note 32 "note_id" "d"])
  /\ needsBrowser SampleRuns.smoothRun
  /\ exists result,
       Pipeline.getUserCollect 100 SampleRuns.smoothRun = Resolved result
       /\ Collect.selectCollectNotes result
          = [SampleRuns.note 11 "note_id" "a"; SampleRuns.note 12 "note_id" "b";
             SampleRuns.note 24 "noteId" "c"; SampleRuns.note 32 "note_id" "d"].
Proof.
  assert (Hsmooth : smooth SampleRuns.smoothRun
            (JsArray 10 [SampleRuns.note 11 "note_id" "a";
                         SampleRuns.note 12 "note_id" "b"])
            (JsArray 30 [SampleRuns.note 31 "note_id" "c";
                         SampleRuns.note 32 "note_id" "d"])).
  { repeat split; try reflexivity. exists false. reflexivity. }
  assert (Hneeds : needsBrowser SampleRuns.smoothRun) by reflexivity.
  split; [exact Hsmooth|]. split; [exact Hneeds|].
  exact (getUserCollect_merges_all 100 SampleRuns.smoothRun _ _ Hsmooth Hneeds).
Defined.

(** X9. When the HTTP fetch gave nothing and the page has loaded, the site's
    answer decides the error: a captcha page raises the [CaptchaError],
    and without captcha a page whose URL holds [passport] or [login]
    raises the [InvalidParameterError] that asks for the cookie. Neither
    is replaced by what later steps would have done. *)
Theorem getUserCollect_blocked :
  forall (addr : N) (run : Pipeline.Run),
    emptyHanded run ->
    (Pipeline.captcha run = Resolved true ->
     Pipeline.getUserCollect addr run
     = Rejected (Pipeline.CaptchaError Pipeline.captchaMessage))
    /\ (Pipeline.captcha run = Resolved false ->
        Pipeline.isLoginUrl (Pipeline.currentUrl run) = true ->
        Pipeline.getUserCollect addr run
        = Rejected (Pipeline.InvalidParameterError
                      Pipeline.cookieNeededMessage)).
Proof.
  intros addr run (Hhttp & Hopen & Hgoto & Hwait & Hclose).
  unfold Pipeline.getUserCollect, Pipeline.finallyBlock.
  rewrite Hhttp, Hopen, Hclose. cbn [andb].
  unfold Pipeline.tryBlock, Pipeline.bind, Pipeline.await, Pipeline.when,
    Pipeline.throw, Pipeline.ret.
  rewrite Hgoto, Hwait.
  split.
  - intros Hcap. rewrite Hcap. unfold Pipeline.catchBlock.
    cbn [Pipeline.collectResult]. rewrite Hhttp. reflexivity.
  - intros Hcap Hurl. rewrite Hcap, Hurl. unfold Pipeline.catchBlock.
    cbn [Pipeline.collectResult]. rewrite Hhttp. reflexivity.
Qed.

Lemma getUserCollect_blocked_witness :
  emptyHanded SampleRuns.captchaRun
  /\ Pipeline.captcha SampleRuns.captchaRun = Resolved true
  /\ Pipeline.getUserCollect 100 SampleRuns.captchaRun
     = Rejected (Pipeline.CaptchaError Pipeline.captchaMessage).
Proof.
  assert (H : emptyHanded SampleRuns.captchaRun) by (repeat split).
  split; [exact H|]. split; [reflexivity|].
  exact (proj1 (getUserCollect_blocked 100 SampleRuns.captchaRun H) eq_refl).
Defined.

(** ** The login sessions: invariants and transitions *)

Lemma run_reachable (events : list Event) :
  forall w w', Reachable w -> run w events = Some w' -> Reachable w'.
Proof.
  induction events as [|ev rest IH]; intros w w' Hw Hrun; simpl in Hrun.
  - injection Hrun as <-. exact Hw.
  - destruct (step w ev) as [w1|] eqn:Hstep; [|discriminate].
    eapply IH; [|exact Hrun]. econstructor; eassumption.
Qed.

Lemma timely_payload_rule_witness :
  ReachableTimely Sample.created
  /\ heap Sample.created !! 0%nat
     = Some (mkSession (lit "s1") pending 1000 (Some 7%nat) (Some 7%nat)
                       None None (Some 1%nat) (Some 2%nat) None)
  /\ payloadRule (mkSession (lit "s1") pending 1000 (Some 7%nat) (Some 7%nat)
                            None None (Some 1%nat) (Some 2%nat) None).
Proof.
  assert (Hreach : ReachableTimely Sample.created).
  { refine (timely_step initial (Create Sample.creation) _ timely_initial I _).
    reflexivity. }
  assert (Hs : heap Sample.created !! 0%nat
               = Some (mkSession (lit "s1") pending 1000 (Some 7%nat)
                                 (Some 7%nat) None None (Some 1%nat)
                                 (Some 2%nat) None))
    by (vm_compute; reflexivity).
  split; [exact Hreach|]. split; [exact Hs|].
  exact (timely_payload_rule Sample.created Hreach 0%nat _ Hs).
Defined.

Lemma reachable_paired_witness :
  Reachable SampleWorlds.expiredWorld
  /\ heap SampleWorlds.expiredWorld !! 0%nat
     = Some (mkSession (lit "s1") expired 1000 None None None None None None
                       (Some 5%nat))
  /\ paired (mkSession (lit "s1") expired 1000 None None None None None None
                       (Some 5%nat)).
Proof.
  assert (Hreach : Reachable SampleWorlds.expiredWorld).
  { refine (run_reachable Sample.expiryDuringTick initial _ reach_initial _).
    vm_compute. reflexivity. }
  assert (Hs : heap SampleWorlds.expiredWorld !! 0%nat
               = Some (mkSession (lit "s1") expired 1000 None None None None
                                 None None (Some 5%nat)))
    by (vm_compute; reflexivity).
  split; [exact Hreach|]. split; [exact Hs|].
  exact (reachable_paired SampleWorlds.expiredWorld Hreach 0%nat _ Hs).
Defined.

Lemma timely_terminal_sticky_witness :
  Reachable SampleWorlds.expiredWorld
  /\ timely SampleWorlds.expiredWorld (Create SampleWorlds.secondCreation)
  /\ exists s',
       heap (fst (createLoginSession SampleWorlds.secondCreation
                    SampleWorlds.expiredWorld)) !! 0%nat = Some s'
       /\ status s' = expired.
Proof.
  assert (Hreach : Reachable SampleWorlds.expiredWorld).
  { refine (run_reachable Sample.expiryDuringTick initial _ reach_initial _).
    vm_compute. reflexivity. }
  assert (Hs : heap SampleWorlds.expiredWorld !! 0%nat
               = Some (mkSession (lit "s1") expired 1000 None None None None
                                 None None (Some 5%nat)))
    by (vm_compute; reflexivity).
  split; [exact Hreach|]. split; [exact I|].
  exact (timely_terminal_sticky SampleWorlds.expiredWorld
           (Create SampleWorlds.secondCreation) _ 0%nat _ Hreach I eq_refl Hs
           eq_refl).
Defined.

(** X13. When the removal timer of a session fires, the session leaves the
    table and nothing else changes: a status poll for its id answers 404
    [missing], a QR request answers [session_inactive], the session object
    itself is untouched and the timer is no longer armed. *)
Theorem removal_forgets_session :
  forall (w w' : World) (t : Timer) (l : Loc) (s : LoginSession)
         (browser : Page -> PageView),
    timers w !! t = Some (RemovalTick l) ->
    heap w !! l = Some s ->
    step w (Fires t) = Some w' ->
    serveStatus (id s) w' = Json 404 MissingBody
    /\ serveQRCode browser (id s) w'
       = Json 404 (ErrorBody (lit "session_inactive") None)
    /\ loginSessions w' = delete (id s) (loginSessions w)
    /\ heap w' = heap w
    /\ timers w' = delete t (timers w).
Proof.
  intros w w' t l s browser Ht Hs Hstep.
  cbn [step] in Hstep. unfold fire in Hstep. rewrite Ht in Hstep.
  injection Hstep as <-. unfold removeSession.
  cbn [heap disarm set_timers]. rewrite Hs.
  unfold serveStatus, serveQRCode, getSession.
  cbn [loginSessions set_loginSessions heap timers set_timers disarm].
  rewrite lookup_delete_eq. auto.
Qed.

Lemma removal_forgets_session_witness :
  timers SampleWorlds.expiredWorld !! 5%nat = Some (RemovalTick 0%nat)
  /\ serveStatus (lit "s1")
       (default initial (step SampleWorlds.expiredWorld (Fires 5%nat)))
     = Json 404 MissingBody.
Proof.
  assert (Ht : timers SampleWorlds.expiredWorld !! 5%nat
               = Some (RemovalTick 0%nat)) by (vm_compute; reflexivity).
  assert (Hs : heap SampleWorlds.expiredWorld !! 0%nat
               = Some (mkSession (lit "s1") expired 1000 None None None None
                                 None None (Some 5%nat)))
    by (vm_compute; reflexivity).
  assert (Hstep : step SampleWorlds.expiredWorld (Fires 5%nat)
                  = Some (default initial
                            (step SampleWorlds.expiredWorld (Fires 5%nat))))
    by (vm_compute; reflexivity).
  split; [exact Ht|].
  exact (proj1 (removal_forgets_session _ _ 5%nat 0%nat _
                  (fun _ => Sample.fallbackView) Ht Hs Hstep)).
Defined.

Lemma cleanupBegin_runtime (l : Loc) (w : World) :
  runtime (fst (cleanupBegin l w)) = runtime w.
Proof.
  assert (H1 : forall w, runtime (clearMonitor l w) = runtime w).
  { intros w0. unfold clearMonitor.
    destruct (heap w0 !! l) as [s|]; [destruct (monitor s)|]; reflexivity. }
  assert (H2 : forall w, runtime (clearExpireTimer l w) = runtime w).
  { intros w0. unfold clearExpireTimer.
    destruct (heap w0 !! l) as [s|]; [destruct (expireTimer s)|]; reflexivity. }
  assert (H3 : forall w, runtime (armRemoval l w) = runtime w).
  { intros w0. unfold armRemoval.
    destruct (heap w0 !! l) as [s|]; [destruct (removalTimer s)|]; reflexivity. }
  unfold cleanupBegin.
  destruct (heap (clearExpireTimer l (clearMonitor l w)) !! l) as [s|];
    [destruct (page s), (Login.destory s)|]; cbn [fst suspend];
    rewrite ?H3; cbn [runtime set_next set_suspended callDestory set_destroyed];
    rewrite H2, H1; reflexivity.
Qed.

Lemma join_member (sep part : JsString) (parts : list JsString) (x : N) :
  In part parts -> In x part -> In x (join sep parts).
Proof.
  induction parts as [|p rest IH]; [intros []|].
  intros [->|Hin] Hx.
  - destruct rest; simpl; [exact Hx | apply in_or_app; left; exact Hx].
  - destruct rest as [|q rest]; [destruct Hin|].
    change (join sep (p :: q :: rest)) with (p ++ sep ++ join sep (q :: rest)).
    apply in_or_app. right. apply in_or_app. right. apply IH; assumption.
Qed.

Lemma trim_not_blank (s : JsString) (x : N) :
  In x s -> isWhiteSpace x = false -> trim s <> [].
Proof.
  intros Hin Hx Ht. apply trim_nil_blank in Ht.
  rewrite forallb_forall in Ht. rewrite (Ht x Hin) in Hx. discriminate.
Qed.

(** X14. A cookie read that shows the login cookie publishes the session:
    when the read of a monitor tick settles with a cookie named
    [web_session], the session object of the tick becomes [success] and
    holds all cookies of the page joined as [name=value; ...], and the
    runtime slot of cookie.ts holds that text, trimmed, with the time of
    the read, so that [getCookieValue] returns it whatever the
    configuration says. *)
Theorem login_publishes_cookie :
  forall (w w' : World) (key : nat) (l : Loc) (s : LoginSession) (now : Z)
         (cookies : list BrowserCookie),
    suspended w !! key = Some (AwaitCookies l) ->
    heap w !! l = Some s ->
    existsb (fun c => bool_decide (name c = lit "web_session")) cookies
    = true ->
    step w (CookiesSettle key now (Resolved cookies)) = Some w' ->
    let text :=
      join (lit "; ") (map (fun c => name c ++ lit "=" ++ value c) cookies) in
    (exists s', heap w' !! l = Some s'
                /\ status s' = success /\ cookie s' = Some text
                /\ error s' = error s /\ id s' = id s)
    /\ trim text <> []
    /\ runtime w' = Cookie.mkState (Some (trim text)) (Some now)
    /\ forall cfg, Cookie.getCookieValue cfg (runtime w') = Some (trim text).
Proof.
  intros w w' key l s now cookies Hkey Hs Hfound Hstep text.
  unfold step in Hstep. rewrite Hkey in Hstep. injection Hstep as <-.
  unfold monitorResume. rewrite Hfound. cbv zeta.
  match goal with
  | |- context [Cookie.setRuntimeCookie now (Some ?t) _] =>
      change t with text
  end.
  assert (Htext : trim text <> []).
  { apply existsb_exists in Hfound as (c & Hc & Hname).
    apply bool_decide_eq_true in Hname.
    apply (trim_not_blank text 119%N); [|reflexivity].
    apply (join_member _ (name c ++ lit "=" ++ value c)).
    - apply in_map_iff. exists c. auto.
    - apply in_or_app. left. rewrite Hname. vm_compute. auto. }
  assert (Hrun : Cookie.setRuntimeCookie now (Some text) (runtime w)
                 = Cookie.mkState (Some (trim text)) (Some now)).
  { unfold Cookie.setRuntimeCookie, Cookie.normalizeCookie.
    destruct text as [|a text']; [exfalso; apply Htext; reflexivity|].
    destruct (trim (a :: text')); [congruence | reflexivity]. }
  clearbody text.
  split; [|split; [exact Htext|]].
  - match goal with
    | |- context [cleanupBegin l ?w1] =>
        destruct (cleanupBegin_gently l w1) as [_ (f & Hf & Hh)];
        rewrite Hh
    end.
    world_simpl.
    eexists. split; [reflexivity|].
    destruct (Hf (set_status success (set_cookie (Some text) s)))
      as (Hid & Hst & _ & Hck & Her & _).
    rewrite Hst, Hck, Her, Hid. destruct s; auto.
  - rewrite cleanupBegin_runtime.
    cbn [runtime assign set_heap set_runtime unpark set_suspended].
    rewrite Hrun. split; [reflexivity|]. intros cfg. reflexivity.
Qed.

Lemma login_publishes_cookie_witness :
  suspended SampleWorlds.tickingWorld !! 3%nat = Some (AwaitCookies 0%nat)
  /\ Cookie.getCookieValue (Some (lit "old=1"))
       (runtime (default initial
                   (step SampleWorlds.tickingWorld
                      (CookiesSettle 3%nat 4000 (Resolved Sample.loggedIn)))))
     = Some (lit "web_session=abc").
Proof.
  assert (Hkey : suspended SampleWorlds.tickingWorld !! 3%nat
                 = Some (AwaitCookies 0%nat)) by (vm_compute; reflexivity).
  assert (Hs : heap SampleWorlds.tickingWorld !! 0%nat
               = Some (mkSession (lit "s1") pending 1000 (Some 7%nat)
                                 (Some 7%nat) None None (Some 1%nat)
                                 (Some 2%nat) None))
    by (vm_compute; reflexivity).
  assert (Hstep : step SampleWorlds.tickingWorld
                    (CookiesSettle 3%nat 4000 (Resolved Sample.loggedIn))
                  = Some (default initial
                            (step SampleWorlds.tickingWorld
                               (CookiesSettle 3%nat 4000
                                  (Resolved Sample.loggedIn)))))
    by (vm_compute; reflexivity).
  split; [exact Hkey|].
  exact (proj2 (proj2 (proj2
           (login_publishes_cookie _ _ 3%nat 0%nat _ 4000 Sample.loggedIn
              Hkey Hs eq_refl Hstep))) (Some (lit "old=1"))).
Defined.

Lemma captureFrom_rejected (view : PageView) (e : Thrown)
    (sels : list JsString) :
  captureFrom view sels = Rejected e ->
  (exists selector, In selector sels /\ query view selector = Rejected e)
  \/ pageScreenshot view = Rejected e.
Proof.
  induction sels as [|selector rest IH]; simpl; [auto|].
  destruct (query view selector) as [[element|]|e0] eqn:Hq.
  - destruct (elementScreenshot view element); [discriminate|].
    intros H. destruct (IH H) as [(sel & Hin & Hsel)|Hp]; eauto.
  - intros H. destruct (IH H) as [(sel & Hin & Hsel)|Hp]; eauto.
  - intros H. injection H as <-. eauto.
Qed.

(** X15. A failed element screenshot is never the failure of the capture:
    when [captureQRCode] is rejected, the error is the one of a rejected
    [page.$] for one of the selectors or the one of the full-page
    screenshot. *)
Theorem captureQRCode_rejections :
  forall (view : PageView) (e : Thrown),
    captureQRCode view = Rejected e ->
    (exists selector,
       In selector selectors /\ query view selector = Rejected e)
    \/ pageScreenshot view = Rejected e.
Proof. intros view e. apply captureFrom_rejected. Qed.

Lemma captureQRCode_rejections_witness :
  captureQRCode SampleWorlds.brokenView = Rejected Sample.targetClosed
  /\ ((exists selector,
         In selector selectors
         /\ query SampleWorlds.brokenView selector
            = Rejected Sample.targetClosed)
      \/ pageScreenshot SampleWorlds.brokenView = Rejected Sample.targetClosed).
Proof.
  assert (H : captureQRCode SampleWorlds.brokenView
              = Rejected Sample.targetClosed) by reflexivity.
  split; [exact H|].
  exact (captureQRCode_rejections SampleWorlds.brokenView _ H).
Defined.
